(** * Semantic-guided VL/IG router: sanitizer, classifier bank, scene plan
      assembler and canonical JSON serializer.

    Shallow embedding of [visual-code/runtime/vlig_semantic_guided_router.cpp]
    (namespace [vc_vlig]).  A [std::string] is a list of 8-bit characters,
    [std::string::npos] is [None], a thrown exception is the [Throw] branch
    of a small error monad, and the range-for loops of the source are left
    folds over the input that push to the back of the output buffer. *)

From Stdlib Require Import Ascii String NArith Sorted.
From stdpp Require Import list strings.

Set Warnings "-abstract-large-number,-register-all".

Local Open Scope char_scope.
Local Open Scope nat_scope.
Local Open Scope list_scope.

(** ** Strings *)

Abbreviation cstring := (list ascii).

(** A string literal of the source. *)
Definition str (s : string) : cstring := list_ascii_of_string s.

(** [static_cast<unsigned char>(c)] *)
Definition uchar (c : ascii) : N := N_of_ascii c.

Definition TAB : ascii := "009".
Definition LF : ascii := "010".
Definition CR : ascii := "013".
Definition SPACE : ascii := " ".
Definition STAR : ascii := "*".
Definition DQUOTE : ascii := "034".
Definition BACKSLASH : ascii := "092".

(** [s.push_back(c)] *)
Definition push_back (s : cstring) (c : ascii) : cstring := s ++ [c].

(** [s.back()] on a non-empty string. *)
Definition back (s : cstring) : option ascii := last s.

(** [s.pop_back()] *)
Definition pop_back (s : cstring) : cstring := removelast s.

(** [s.resize(n)] when [n <= s.size()]: the buffer is cut to [n] bytes. *)
Definition resize_down (s : cstring) (n : nat) : cstring := take n s.

(** ** Sanitizer *)

Definition isAsciiPrintable (c : ascii) : bool :=
  let u := uchar c in
  ((32 <=? u) && (u <=? 126))%N.

Definition stripControl (input : cstring) : cstring :=
  fold_left
    (fun out c =>
       if isAsciiPrintable c || Ascii.eqb c LF || Ascii.eqb c TAB
       then push_back out c
       else out)
    input [].

Definition isSpaceLike (c : ascii) : bool :=
  Ascii.eqb c SPACE || Ascii.eqb c TAB || Ascii.eqb c LF || Ascii.eqb c CR.

(** One iteration of the loop of [collapseWhitespace]; the state is the
    output buffer and the flag [space]. *)
Definition collapse_step (st : cstring * bool) (c : ascii) : cstring * bool :=
  let '(out, space) := st in
  if isSpaceLike c then
    if negb space then (push_back out SPACE, true) else (out, space)
  else (push_back out c, false).

Definition collapseWhitespace (input : cstring) : cstring :=
  let '(out, _) := fold_left collapse_step input ([], false) in
  match back out with
  | Some c => if Ascii.eqb c SPACE then pop_back out else out
  | None => out
  end.

Definition lowerChar (c : ascii) : ascii :=
  if ((uchar "A" <=? uchar c) && (uchar c <=? uchar "Z"))%N
  then ascii_of_N (uchar c - uchar "A" + uchar "a")
  else c.

Definition toLowerASCII (input : cstring) : cstring :=
  fold_left (fun out c => push_back out (lowerChar c)) input [].

(** *** [std::string::find] *)

Fixpoint starts_with (t l : cstring) : bool :=
  match t, l with
  | [], _ => true
  | a :: t', b :: l' => Ascii.eqb a b && starts_with t' l'
  | _ :: _, [] => false
  end.

(** First offset [j] such that [t] is a prefix of [drop j l], reported as
    [i + j]. *)
Fixpoint find_at (t l : cstring) (i : nat) : option nat :=
  match l with
  | [] => if starts_with t [] then Some i else None
  | _ :: r => if starts_with t l then Some i else find_at t r (S i)
  end.

(** [s.find(t, pos)]; [None] is [npos]. *)
Definition find (s t : cstring) (pos : nat) : option nat :=
  if length s <? pos then None else find_at t (drop pos s) pos.

(** [s.find(t) != std::string::npos] *)
Definition contains (s : cstring) (t : string) : bool :=
  bool_decide (is_Some (find s (str t) 0)).

(** *** Blocklist redaction *)

Definition kBlockList : list cstring :=
  [str "nsfw"; str "nude"; str "nudity"; str "porn";
   str "explicit"; str "sexual"; str "erotic"].

(** The pair of buffers [(out, lower)] that [stripNSFWMarkers] masks in
    lockstep. *)
Abbreviation buffers := (cstring * cstring)%type.

(** The inner [for] loop: [n] is what is left of [t.size() - i] and [j] is
    [pos + i]; the loop stops as soon as [pos + i < out.size()] fails. *)
Fixpoint mask_span (n j : nat) (st : buffers) : buffers :=
  match n with
  | 0 => st
  | S n' =>
      let '(out, lower) := st in
      if j <? length out
      then mask_span n' (S j) (<[j := STAR]> out, <[j := STAR]> lower)
      else st
  end.

(** The [while (true)] loop for one blocklist term.  Every iteration moves
    [pos] forward by [t.size()]; the loop has no bound in the source, so it
    runs on fuel here and [None] stands for a loop that is still running
    when the fuel is spent. *)
Fixpoint scan_term (fuel : nat) (t : cstring) (pos : nat) (st : buffers)
  : option buffers :=
  match fuel with
  | 0 => None
  | S fuel' =>
      match find st.2 t pos with
      | None => Some st
      | Some p => scan_term fuel' t (p + length t) (mask_span (length t) p st)
      end
  end.

(** The outer loop over the blocklist. *)
Fixpoint scan_terms (fuel : nat) (ts : list cstring) (st : buffers)
  : option buffers :=
  match ts with
  | [] => Some st
  | t :: ts' =>
      match scan_term fuel t 0 st with
      | Some st' => scan_terms fuel ts' st'
      | None => None
      end
  end.

Definition stripNSFWMarkers_fuel (fuel : nat) (input : cstring)
  : option cstring :=
  let lower := toLowerASCII input in
  let out := input in
  match scan_terms fuel kBlockList (out, lower) with
  | Some (out', _) => Some out'
  | None => None
  end.

(** One unit of fuel per byte of input, and one for the last, failing
    [find], is enough for every term ([stripNSFWMarkers_fuel_enough]). *)
Definition stripNSFWMarkers (input : cstring) : cstring :=
  default input (stripNSFWMarkers_fuel (S (length input)) input).

(** *** Errors *)

(** [InvalidInput] is the [std::invalid_argument] of the source and
    [SanitizationExhausted] its [std::runtime_error]. *)
Inductive error : Type :=
| InvalidInput
| SanitizationExhausted.

Inductive result (A : Type) : Type :=
| Ok (a : A)
| Throw (e : error).
Arguments Ok {A} a.
Arguments Throw {A} e.

#[global] Instance result_ret : MRet result := fun A a => Ok a.
#[global] Instance result_bind : MBind result := fun A B k r =>
  match r with
  | Ok a => k a
  | Throw e => Throw e
  end.

(** The literal [8000] of [sanitizePromptForVision]. *)
Definition kMaxPromptBytes : nat := 8000.

Definition sanitizePromptForVision (raw : cstring) : result cstring :=
  if bool_decide (raw = []) then Throw InvalidInput else
  let step1 := stripControl raw in
  let step2 := collapseWhitespace step1 in
  let step3 := stripNSFWMarkers step2 in
  if bool_decide (step3 = []) then Throw SanitizationExhausted else
  let step3 :=
    if kMaxPromptBytes <? length step3
    then resize_down step3 kMaxPromptBytes
    else step3 in
  Ok step3.

(** ** Data model *)

(** The scoped enumerations of the source.  [VCLighting::Auto],
    [VCBrushDetail::Auto], [VCCompositionRule::None] and the enumerators of
    [VCBrushDetail] share their names with others, so they carry a prefix
    here. *)

Inductive VCIGMode := TextToImage | ImageToImage | Inpaint | Outpaint.
Inductive VCQualityPreset := Draft | Standard | High | Ultra.
Inductive VCSafetyProfile := Safe | AllowNSFW.
Inductive VCColorTone := Neutral | Warm | Cool | HighContrast | Pastel.
Inductive VCLighting :=
  LightAuto | Soft | Hard | Dramatic | Studio.
Inductive VCCameraAngle :=
  EyeLevel | LowAngle | HighAngle | TopDown | Isometric | CloseUp | WideShot.
Inductive VCArtStyle :=
  Unspecified | Photorealistic | DigitalPainting | Watercolor | Anime
| LineArt | LowPoly | PixelArt | ConceptArt.
Inductive VCCompositionRule :=
  RuleNone | RuleOfThirds | Centered | GoldenRatio | Symmetric | LeadingLines.
Inductive VCAspectRatio :=
  Ratio_1_1 | Ratio_16_9 | Ratio_9_16 | Ratio_4_3 | Ratio_3_4 | Ratio_21_9.
Inductive VCBrushDetail :=
  BrushAuto | BrushMinimal | BrushNormal | BrushHigh | BrushHyper.

(** A C++ [float], kept as its IEEE-754 binary32 bit pattern. *)
Definition float32 : Type := N.

(** [35.0f]: sign 0, exponent 132, mantissa 0x0C0000. *)
Definition f35 : float32 := 0x420C0000%N.

Record VCSubjectDescriptor := {
  name : cstring;
  attributes : cstring;
  positionHint : cstring
}.

Record VCBackgroundDescriptor := {
  environment : cstring;
  timeOfDay : cstring;
  weather : cstring
}.

Record VCColorLightingDescriptor := {
  colorTone : VCColorTone;
  lighting : VCLighting;
  paletteHint : cstring
}.

Record VCCameraDescriptor := {
  angle : VCCameraAngle;
  focalLengthMM : float32;
  depthOfField : bool
}.

Record VCCompositionDescriptor := {
  rule : VCCompositionRule;
  allowCropping : bool;
  centerMainSubject : bool
}.

Record VCArtStyleDescriptor := {
  style : VCArtStyle;
  brushDetail : VCBrushDetail;
  eraHint : cstring
}.

Record VCNegativeConstraints := {
  visualArtifacts : cstring;
  contentExclusions : cstring
}.

Record VCScenePlan := {
  corePrompt : cstring;
  primarySubject : VCSubjectDescriptor;
  secondarySubjects : list VCSubjectDescriptor;
  background : VCBackgroundDescriptor;
  colorLighting : VCColorLightingDescriptor;
  camera : VCCameraDescriptor;
  composition : VCCompositionDescriptor;
  artStyle : VCArtStyleDescriptor;
  negatives : VCNegativeConstraints;
  aspectRatio : VCAspectRatio;
  mode : VCIGMode;
  safety : VCSafetyProfile;
  quality : VCQualityPreset
}.

(** ** Classifier bank *)

Definition guessAspectFromText (lower : cstring) : VCAspectRatio :=
  if contains lower "vertical" || contains lower "portrait"
     || contains lower "9:16"
  then Ratio_9_16
  else if contains lower "cinematic" || contains lower "wide"
          || contains lower "16:9" || contains lower "21:9"
  then (if contains lower "21:9" then Ratio_21_9 else Ratio_16_9)
  else if contains lower "4:3" then Ratio_4_3
  else if contains lower "3:4" then Ratio_3_4
  else Ratio_1_1.

Definition guessArtStyle (lower : cstring) : VCArtStyle :=
  if contains lower "photo" || contains lower "photoreal"
     || contains lower "realistic"
  then Photorealistic
  else if contains lower "anime" || contains lower "manga" then Anime
  else if contains lower "watercolor" then Watercolor
  else if contains lower "pixel" then PixelArt
  else if contains lower "line art" || contains lower "sketch" then LineArt
  else if contains lower "low poly" || contains lower "low-poly" then LowPoly
  else if contains lower "concept art" || contains lower "key art"
  then ConceptArt
  else if contains lower "painting" || contains lower "digital painting"
  then DigitalPainting
  else Unspecified.

Definition guessLighting (lower : cstring) : VCLighting :=
  if contains lower "soft light" || contains lower "soft lighting" then Soft
  else if contains lower "dramatic" || contains lower "cinematic light"
  then Dramatic
  else if contains lower "studio" || contains lower "three-point" then Studio
  else if contains lower "hard light" then Hard
  else LightAuto.

Definition guessColorTone (lower : cstring) : VCColorTone :=
  if contains lower "teal and orange" || contains lower "warm"
     || contains lower "sunset"
  then Warm
  else if contains lower "cool" || contains lower "blueish" then Cool
  else if contains lower "pastel" then Pastel
  else if contains lower "high contrast" || contains lower "noir"
  then HighContrast
  else Neutral.

Definition guessCameraAngle (lower : cstring) : VCCameraAngle :=
  if contains lower "top-down" || contains lower "top down"
     || contains lower "bird's-eye"
  then TopDown
  else if contains lower "close-up" || contains lower "close up"
          || contains lower "portrait shot"
  then CloseUp
  else if contains lower "wide shot" || contains lower "wide angle"
  then WideShot
  else if contains lower "low angle" then LowAngle
  else if contains lower "high angle" then HighAngle
  else if contains lower "isometric" then Isometric
  else EyeLevel.

Definition guessComposition (lower : cstring) : VCCompositionRule :=
  if contains lower "rule of thirds" then RuleOfThirds
  else if contains lower "centered" || contains lower "symmetrical"
          || contains lower "symmetry"
  then Centered
  else if contains lower "golden ratio" then GoldenRatio
  else if contains lower "leading lines" then LeadingLines
  else if contains lower "symmetric" then Symmetric
  else RuleNone.

(** *** Subject name *)

Definition isSeparator (c : ascii) : bool :=
  Ascii.eqb c " " || Ascii.eqb c "," || Ascii.eqb c "." || Ascii.eqb c "!"
  || Ascii.eqb c "?".

(** One iteration of the tokenizer; the state is [(tokens, cur)]. *)
Definition token_step (st : list cstring * cstring) (c : ascii)
  : list cstring * cstring :=
  let '(tokens, cur) := st in
  if isSeparator c then
    if negb (bool_decide (cur = [])) then (tokens ++ [cur], [])
    else (tokens, cur)
  else (tokens, push_back cur c).

Definition tokenize (lower : cstring) : list cstring :=
  let '(tokens, cur) := fold_left token_step lower ([], []) in
  if negb (bool_decide (cur = [])) then tokens ++ [cur] else tokens.

Definition stopWords : list cstring :=
  [str "a"; str "an"; str "the"; str "of"; str "in"; str "on"; str "with";
   str "at"; str "to"; str "for"].

Definition isStop (tok : cstring) : bool :=
  existsb (fun s => bool_decide (tok = s)) stopWords.

(** The loop [for (i = size - 1; i >= 0; --i)]; [n] is [i + 1]. *)
Fixpoint last_non_stop (tokens : list cstring) (n : nat) : option cstring :=
  match n with
  | 0 => None
  | S i =>
      match tokens !! i with
      | Some tok => if negb (isStop tok) then Some tok
                    else last_non_stop tokens i
      | None => None
      end
  end.

Definition guessSubjectName (prompt : cstring) : cstring :=
  let lower := toLowerASCII prompt in
  let tokens := tokenize lower in
  if bool_decide (tokens = []) then str "subject" else
  match last_non_stop tokens (length tokens) with
  | Some tok => tok
  | None => default [] (last tokens)
  end.

(** ** Scene plan assembler *)

Definition buildScenePlanFromPrompt (rawPrompt : cstring) (igMode : VCIGMode)
    (safety0 : VCSafetyProfile) (quality0 : VCQualityPreset)
  : result VCScenePlan :=
  core ← sanitizePromptForVision rawPrompt;
  let lower := toLowerASCII core in
  let cameraAngle := guessCameraAngle lower in
  mret {|
    corePrompt := core;
    mode := igMode;
    safety := safety0;
    quality := quality0;
    aspectRatio := guessAspectFromText lower;
    artStyle := {|
      style := guessArtStyle lower;
      brushDetail := BrushNormal;
      eraHint := [] |};
    colorLighting := {|
      colorTone := guessColorTone lower;
      lighting := guessLighting lower;
      paletteHint := [] |};
    camera := {|
      angle := cameraAngle;
      focalLengthMM := f35;
      depthOfField :=
        match cameraAngle with CloseUp => true | _ => false end |};
    composition := {|
      rule := guessComposition lower;
      allowCropping := true;
      centerMainSubject := true |};
    primarySubject := {|
      name := guessSubjectName core;
      attributes := [];
      positionHint := str "center" |};
    secondarySubjects := [];
    background := {|
      environment :=
        if contains lower "forest" then str "forest"
        else if contains lower "city" then str "city"
        else if contains lower "space" || contains lower "galaxy"
                || contains lower "nebula" then str "space"
        else if contains lower "beach" || contains lower "ocean"
                || contains lower "sea" then str "seaside"
        else [];
      timeOfDay :=
        if contains lower "sunset" then str "sunset"
        else if contains lower "night" then str "night"
        else if contains lower "dawn" || contains lower "sunrise"
        then str "dawn"
        else [];
      weather :=
        if contains lower "rain" then str "rainy"
        else if contains lower "fog" || contains lower "mist"
        then str "foggy"
        else if contains lower "snow" then str "snowy"
        else [] |};
    negatives := {|
      visualArtifacts :=
        str "blurry, extra limbs, distorted faces, text artifacts";
      contentExclusions := str "no gore, no real-world logos" |}
  |}.

(** ** Canonical serializer *)

(** The [switch] of [jsonEscape] on one character: what is appended to
    [out]. *)
Definition escape_char (c : ascii) : cstring :=
  if Ascii.eqb c DQUOTE then [BACKSLASH; DQUOTE]
  else if Ascii.eqb c BACKSLASH then [BACKSLASH; BACKSLASH]
  else if Ascii.eqb c LF then [BACKSLASH; "n"]
  else if Ascii.eqb c CR then [BACKSLASH; "r"]
  else if Ascii.eqb c TAB then [BACKSLASH; "t"]
  else if (uchar c <? 32)%N then []
  else [c].

Definition jsonEscape (input : cstring) : cstring :=
  fold_left (fun out c => out ++ escape_char c) input [].

Definition toString_VCAspectRatio (r : VCAspectRatio) : cstring :=
  match r with
  | Ratio_1_1 => str "1:1"
  | Ratio_16_9 => str "16:9"
  | Ratio_9_16 => str "9:16"
  | Ratio_4_3 => str "4:3"
  | Ratio_3_4 => str "3:4"
  | Ratio_21_9 => str "21:9"
  end.

Definition toString_VCIGMode (m : VCIGMode) : cstring :=
  match m with
  | TextToImage => str "text-to-image"
  | ImageToImage => str "image-to-image"
  | Inpaint => str "inpaint"
  | Outpaint => str "outpaint"
  end.

Definition toString_VCSafetyProfile (s : VCSafetyProfile) : cstring :=
  match s with
  | Safe => str "safe"
  | AllowNSFW => str "allow-nsfw"
  end.

Definition toString_VCQualityPreset (q : VCQualityPreset) : cstring :=
  match q with
  | Draft => str "draft"
  | Standard => str "standard"
  | High => str "high"
  | Ultra => str "ultra"
  end.

Definition toString_VCColorTone (t : VCColorTone) : cstring :=
  match t with
  | Neutral => str "neutral"
  | Warm => str "warm"
  | Cool => str "cool"
  | HighContrast => str "high-contrast"
  | Pastel => str "pastel"
  end.

Definition toString_VCLighting (l : VCLighting) : cstring :=
  match l with
  | LightAuto => str "auto"
  | Soft => str "soft"
  | Hard => str "hard"
  | Dramatic => str "dramatic"
  | Studio => str "studio"
  end.

Definition toString_VCCameraAngle (a : VCCameraAngle) : cstring :=
  match a with
  | EyeLevel => str "eye-level"
  | LowAngle => str "low-angle"
  | HighAngle => str "high-angle"
  | TopDown => str "top-down"
  | Isometric => str "isometric"
  | CloseUp => str "close-up"
  | WideShot => str "wide-shot"
  end.

Definition toString_VCCompositionRule (r : VCCompositionRule) : cstring :=
  match r with
  | RuleNone => str "none"
  | RuleOfThirds => str "rule-of-thirds"
  | Centered => str "centered"
  | GoldenRatio => str "golden-ratio"
  | Symmetric => str "symmetric"
  | LeadingLines => str "leading-lines"
  end.

Definition toString_VCArtStyle (s : VCArtStyle) : cstring :=
  match s with
  | Unspecified => str "unspecified"
  | Photorealistic => str "photorealistic"
  | DigitalPainting => str "digital-painting"
  | Watercolor => str "watercolor"
  | Anime => str "anime"
  | LineArt => str "line-art"
  | LowPoly => str "low-poly"
  | PixelArt => str "pixel-art"
  | ConceptArt => str "concept-art"
  end.

Definition toString_VCBrushDetail (d : VCBrushDetail) : cstring :=
  match d with
  | BrushAuto => str "auto"
  | BrushMinimal => str "minimal"
  | BrushNormal => str "normal"
  | BrushHigh => str "high"
  | BrushHyper => str "hyper"
  end.

(** [b ? "true" : "false"] *)
Definition bool_token (b : bool) : cstring :=
  if b then str "true" else str "false".

(** The C literal that opens a member: a quoted key and a colon. *)
Definition key (k : string) : cstring := [DQUOTE] ++ str k ++ [DQUOTE; ":"].

(** The C literals that open and close a string value. *)
Definition key_quote (k : string) : cstring := key k ++ [DQUOTE].
Definition quote_comma : cstring := [DQUOTE; ","].
Definition quote : cstring := [DQUOTE].

(** The body of the loop over [p.secondarySubjects]: [n] is the size of the
    vector and [i] the index of the head of [l]. *)
Fixpoint secondary_loop (n i : nat) (l : list VCSubjectDescriptor)
    (j : cstring) : cstring :=
  match l with
  | [] => j
  | s :: r =>
      let j := j ++ str "{" in
      let j := j ++ (key_quote "name" ++ jsonEscape (name s) ++ quote_comma) in
      let j := j ++ (key_quote "attributes" ++ jsonEscape (attributes s)
                     ++ quote_comma) in
      let j := j ++ (key_quote "position_hint" ++ jsonEscape (positionHint s)
                     ++ quote) in
      let j := j ++ str "}" in
      let j := if i + 1 <? n then j ++ str "," else j in
      secondary_loop n (S i) r j
  end.

Section Serializer.

(** [std::to_string(float)] of the C++ library. *)
Variable to_string_float : float32 -> cstring.

Definition serializeScenePlanToJSON (p : VCScenePlan) : cstring :=
  let j := [] in
  let j := j ++ str "{" in
  let j := j ++ (key_quote "core_prompt" ++ jsonEscape (corePrompt p)
                 ++ quote_comma) in
  let j := j ++ key_quote "mode" in
  let j := j ++ toString_VCIGMode (mode p) in
  let j := j ++ quote_comma in
  let j := j ++ key_quote "safety_profile" in
  let j := j ++ toString_VCSafetyProfile (safety p) in
  let j := j ++ quote_comma in
  let j := j ++ key_quote "quality_preset" in
  let j := j ++ toString_VCQualityPreset (quality p) in
  let j := j ++ quote_comma in
  let j := j ++ key_quote "aspect_ratio" in
  let j := j ++ toString_VCAspectRatio (aspectRatio p) in
  let j := j ++ quote_comma in
  (* Primary subject *)
  let j := j ++ (key "primary_subject" ++ str "{") in
  let j := j ++ (key_quote "name" ++ jsonEscape (name (primarySubject p))
                 ++ quote_comma) in
  let j := j ++ (key_quote "attributes"
                 ++ jsonEscape (attributes (primarySubject p))
                 ++ quote_comma) in
  let j := j ++ (key_quote "position_hint"
                 ++ jsonEscape (positionHint (primarySubject p))
                 ++ quote) in
  let j := j ++ str "}," in
  (* Secondary subjects *)
  let j := j ++ (key "secondary_subjects" ++ str "[") in
  let j := secondary_loop (length (secondarySubjects p)) 0
             (secondarySubjects p) j in
  let j := j ++ str "]," in
  (* Background *)
  let j := j ++ (key "background" ++ str "{") in
  let j := j ++ (key_quote "environment"
                 ++ jsonEscape (environment (background p))
                 ++ quote_comma) in
  let j := j ++ (key_quote "time_of_day"
                 ++ jsonEscape (timeOfDay (background p))
                 ++ quote_comma) in
  let j := j ++ (key_quote "weather" ++ jsonEscape (weather (background p))
                 ++ quote) in
  let j := j ++ str "}," in
  (* Color + lighting *)
  let j := j ++ (key "color_lighting" ++ str "{") in
  let j := j ++ key_quote "color_tone" in
  let j := j ++ toString_VCColorTone (colorTone (colorLighting p)) in
  let j := j ++ quote_comma in
  let j := j ++ key_quote "lighting" in
  let j := j ++ toString_VCLighting (lighting (colorLighting p)) in
  let j := j ++ quote_comma in
  let j := j ++ (key_quote "palette_hint"
                 ++ jsonEscape (paletteHint (colorLighting p))
                 ++ quote) in
  let j := j ++ str "}," in
  (* Camera *)
  let j := j ++ (key "camera" ++ str "{") in
  let j := j ++ key_quote "angle" in
  let j := j ++ toString_VCCameraAngle (angle (camera p)) in
  let j := j ++ quote_comma in
  let j := j ++ key "focal_length_mm" in
  let j := j ++ to_string_float (focalLengthMM (camera p)) in
  let j := j ++ str "," in
  let j := j ++ key "depth_of_field" in
  let j := j ++ bool_token (depthOfField (camera p)) in
  let j := j ++ str "}," in
  (* Composition *)
  let j := j ++ (key "composition" ++ str "{") in
  let j := j ++ key_quote "rule" in
  let j := j ++ toString_VCCompositionRule (rule (composition p)) in
  let j := j ++ quote_comma in
  let j := j ++ key "allow_cropping" in
  let j := j ++ bool_token (allowCropping (composition p)) in
  let j := j ++ str "," in
  let j := j ++ key "center_main_subject" in
  let j := j ++ bool_token (centerMainSubject (composition p)) in
  let j := j ++ str "}," in
  (* Art style *)
  let j := j ++ (key "art_style" ++ str "{") in
  let j := j ++ key_quote "style" in
  let j := j ++ toString_VCArtStyle (style (artStyle p)) in
  let j := j ++ quote_comma in
  let j := j ++ key_quote "brush_detail" in
  let j := j ++ toString_VCBrushDetail (brushDetail (artStyle p)) in
  let j := j ++ quote_comma in
  let j := j ++ (key_quote "era_hint" ++ jsonEscape (eraHint (artStyle p))
                 ++ quote) in
  let j := j ++ str "}," in
  (* Negatives *)
  let j := j ++ (key "negative_constraints" ++ str "{") in
  let j := j ++ (key_quote "visual_artifacts"
                 ++ jsonEscape (visualArtifacts (negatives p))
                 ++ quote_comma) in
  let j := j ++ (key_quote "content_exclusions"
                 ++ jsonEscape (contentExclusions (negatives p))
                 ++ quote) in
  let j := j ++ str "}" in
  let j := j ++ str "}" in
  j.

Record VCSemanticIGResult := {
  scene : VCScenePlan;
  jsonControl : cstring
}.

(** High-level entry point. *)
Definition BuildSemanticIGSpec (userPrompt : cstring) (mode0 : VCIGMode)
    (safety0 : VCSafetyProfile) (quality0 : VCQualityPreset)
  : result VCSemanticIGResult :=
  plan ← buildScenePlanFromPrompt userPrompt mode0 safety0 quality0;
  mret {| scene := plan; jsonControl := serializeScenePlanToJSON plan |}.

End Serializer.

(** ** The prompts of scenarios A and D of the specification *)

Definition promptA : cstring :=
  str "A cinematic portrait, 16:9, soft lighting, rule of thirds".

Definition promptD : cstring :=
  str "close-up of a dragon in a foggy forest at night, anime style, 9:16".

(** * Notions of the specification *)

(** ** The loops as list functions *)

(** The test of [stripControl]. *)
Definition keeps (c : ascii) : bool :=
  isAsciiPrintable c || Ascii.eqb c LF || Ascii.eqb c TAB.

(** What [collapseWhitespace] appends to [out] from a state with flag
    [space]. *)
Fixpoint collapse_run (space : bool) (l : cstring) : cstring :=
  match l with
  | [] => []
  | c :: r =>
      if isSpaceLike c
      then if space then collapse_run true r else SPACE :: collapse_run true r
      else c :: collapse_run false r
  end.

(** The last two lines of [collapseWhitespace]. *)
Definition trim_back (out : cstring) : cstring :=
  match back out with
  | Some c => if Ascii.eqb c SPACE then pop_back out else out
  | None => out
  end.

(** ** Occurrences and masks *)

(** [t] stands in [s] at offset [q]. *)
Definition occurs_at (t s : cstring) (q : nat) : Prop :=
  forall k c, t !! k = Some c -> s !! (q + k) = Some c.

(** [t] is a substring of [s]. *)
Definition substring (t s : cstring) : Prop :=
  exists a b, s = a ++ t ++ b.

(** The inner loop of [stripNSFWMarkers] on one buffer. *)
Fixpoint mask1 (n j : nat) (s : cstring) : cstring :=
  match n with
  | 0 => s
  | S n' => if j <? length s then mask1 n' (S j) (<[j := STAR]> s) else s
  end.

(** ** The log of matches *)

(** A match: the blocklist term and the offset [pos] at which [find]
    reported it. *)
Abbreviation event := (cstring * nat)%type.

Definition in_span (e : event) (i : nat) : Prop :=
  e.2 <= i < e.2 + length e.1.

Definition covered (evs : list event) (i : nat) : Prop :=
  Exists (fun e => in_span e i) evs.

#[global] Instance in_span_dec e i : Decision (in_span e i).
Proof. unfold in_span. apply _. Defined.

#[global] Instance covered_dec evs i : Decision (covered evs i).
Proof. unfold covered. apply _. Defined.

(** The masks of a log, applied in order. *)
Definition apply_masks (evs : list event) (s : cstring) : cstring :=
  fold_left (fun s e => mask1 (length e.1) e.2 s) evs s.

(** [scan_term] with the list of the offsets it masked. *)
Fixpoint scan_term_log (fuel : nat) (t : cstring) (pos : nat) (st : buffers)
  : option (buffers * list nat) :=
  match fuel with
  | 0 => None
  | S fuel' =>
      match find st.2 t pos with
      | None => Some (st, [])
      | Some p =>
          match scan_term_log fuel' t (p + length t)
                  (mask_span (length t) p st) with
          | Some (st', ps) => Some (st', p :: ps)
          | None => None
          end
      end
  end.

(** [scan_terms] with the log of all matches, in the order in which the
    loops found them. *)
Fixpoint scan_terms_log (fuel : nat) (ts : list cstring) (st : buffers)
  : option (buffers * list event) :=
  match ts with
  | [] => Some (st, [])
  | t :: ts' =>
      match scan_term_log fuel t 0 st with
      | Some (st', ps) =>
          match scan_terms_log fuel ts' st' with
          | Some (st'', evs) => Some (st'', map (pair t) ps ++ evs)
          | None => None
          end
      | None => None
      end
  end.

(** The matches of [stripNSFWMarkers] on [input]. *)
Definition stripNSFW_matches (input : cstring) : list event :=
  match scan_terms_log (S (length input)) kBlockList
          (input, toLowerASCII input) with
  | Some (_, evs) => evs
  | None => []
  end.

(** Every logged match is a match of the term in the lowercased input,
    and shares no character with the matches before it. *)
Definition log_ok (s0 : cstring) (evs : list event) : Prop :=
  forall k e, evs !! k = Some e ->
    occurs_at e.1 (lowerChar <$> s0) e.2
    /\ forall i, in_span e i -> ~ covered (take k evs) i.

(** What the loops need of a blocklist term. *)
Definition good_term (t : cstring) : Prop := t <> [] /\ STAR ∉ t.

(** The events of one term, and of a list of terms. *)
Definition term_events (t : cstring) (ps : list nat) : list event :=
  map (pair t) ps.

Definition all_events (ts : list cstring) (pss : list (list nat))
  : list event :=
  concat (zip_with term_events ts pss).

(** After a match at [p] the search goes on at [p + t.size()]. *)
Definition resumes_after (t : cstring) (ps : list nat) : Prop :=
  StronglySorted (fun p q => p + length t <= q) ps.

(** ** The stages of the sanitizer *)

(** The three stages before the cut to [kMaxPromptBytes]. *)
Definition processed (raw : cstring) : cstring :=
  stripNSFWMarkers (collapseWhitespace (stripControl raw)).

(** The last stage: the cut to [kMaxPromptBytes] bytes. *)
Definition truncated (s : cstring) : cstring :=
  if kMaxPromptBytes <? length s then resize_down s kMaxPromptBytes else s.

(** ** JSON documents, as the specification describes them *)

Module Json.




Section Render.

Variable to_string_float : float32 -> cstring.


End Render.



End Json.





(** ** Shapes of strings *)

(** A string that [collapseWhitespace] has nothing to do on, read from a
    state with flag [space]: its white space is single spaces. *)
Fixpoint collapsedb (space : bool) (l : cstring) : bool :=
  match l with
  | [] => true
  | c :: r =>
      if isSpaceLike c
      then negb space && Ascii.eqb c SPACE && collapsedb true r
      else collapsedb false r
  end.

(** The ASCII letters. *)
Definition isUpper (c : ascii) : bool :=
  ((uchar "A" <=? uchar c) && (uchar c <=? uchar "Z"))%N.

Definition isLower (c : ascii) : bool :=
  ((uchar "a" <=? uchar c) && (uchar c <=? uchar "z"))%N.

Definition isLetter (c : ascii) : bool := isUpper c || isLower c.

(** A byte that has a visible glyph: printable and not the space. *)
Definition isGraphic (c : ascii) : bool :=
  ((33 <=? uchar c) && (uchar c <=? 126))%N.

(** ** Letter case *)

(** Two bytes that are equal up to the case of an ASCII letter. *)
Definition same_letter (c d : ascii) : Prop :=
  c = d
  \/ (isUpper c = true /\ uchar d = (uchar c + 32)%N)
  \/ (isUpper d = true /\ uchar c = (uchar d + 32)%N).

(** [t] is a substring of [s] up to letter case. *)
Definition substring_nocase (t s : cstring) : Prop :=
  exists a m b, s = a ++ m ++ b /\ Forall2 same_letter m t.

(** A byte that is printable ASCII, a newline or a tab, by its code. *)
Definition safe_byte (c : ascii) : bool :=
  ((32 <=? uchar c) && (uchar c <=? 126))%N
  || (uchar c =? 10)%N || (uchar c =? 9)%N.

(** ** Reading an escaped string back *)

(** The bytes that [jsonEscape] drops. *)
Definition json_dropped (c : ascii) : bool :=
  (uchar c <? 32)%N
  && negb (Ascii.eqb c LF || Ascii.eqb c CR || Ascii.eqb c TAB).

(** The character that stands after a backslash. *)
Definition unescape_char (c : ascii) : ascii :=
  if Ascii.eqb c "n" then LF
  else if Ascii.eqb c "r" then CR
  else if Ascii.eqb c "t" then TAB
  else c.

(** The reader of the escapes that [jsonEscape] writes. *)
Fixpoint jsonUnescape (l : cstring) : cstring :=
  match l with
  | [] => []
  | b :: r =>
      if Ascii.eqb b BACKSLASH
      then match r with
           | [] => [b]
           | c :: r' => unescape_char c :: jsonUnescape r'
           end
      else b :: jsonUnescape r
  end.

(** ** A model of [std::to_string] *)

(** What [std::to_string] gives for [35.0f] in the C locale, for every
    argument. *)
Definition to_string_fixed (f : float32) : cstring := str "35.000000".

(** ** Notions of the further properties *)

(** A byte that is no white space. *)
Definition notSpace (c : ascii) : bool := negb (isSpaceLike c).

(** What the tokenizer keeps while it reads: the tokens and the current
    word are runs of bytes of the text read so far, without a separator. *)
Definition tokens_ok (pre : cstring) (st : list cstring * cstring) : Prop :=
  Forall (fun tok => tok <> []
                     /\ Forall (fun c => isSeparator c = false) tok
                     /\ substring tok pre) st.1
  /\ Forall (fun c => isSeparator c = false) st.2
  /\ exists a, pre = a ++ st.2.

(** What the scan does to the lowercase buffer, and what it logs, does not
    depend on the other buffer. *)
Definition same_scan {L} (r1 r2 : option (buffers * L)) : Prop :=
  match r1, r2 with
  | Some ((o1, l1), log1), Some ((o2, l2), log2) =>
      l1 = l2 /\ log1 = log2
      /\ length o1 = length l1 /\ length o2 = length l1
  | None, None => True
  | _, _ => False
  end.

(** The fields of a plan that are read off the lowercased prompt. *)
Definition same_reading (p1 p2 : VCScenePlan) : Prop :=
  toLowerASCII (corePrompt p1) = toLowerASCII (corePrompt p2)
  /\ primarySubject p1 = primarySubject p2
  /\ secondarySubjects p1 = secondarySubjects p2
  /\ background p1 = background p2
  /\ colorLighting p1 = colorLighting p2
  /\ camera p1 = camera p2
  /\ composition p1 = composition p2
  /\ artStyle p1 = artStyle p2
  /\ negatives p1 = negatives p2
  /\ aspectRatio p1 = aspectRatio p2.

(** A prompt of 8001 bytes with a space as byte 7999. *)
Definition long_prompt : cstring := repeat "a" 7999 ++ str " b".

(** A byte that is no control character. *)
Definition no_control (c : ascii) : bool := (32 <=? uchar c)%N.

(** A plan whose strings hold quotes, backslashes and control bytes. *)
Definition sample_subject : VCSubjectDescriptor :=
  {| name := [DQUOTE; "001"; "x"];
     attributes := [LF; BACKSLASH];
     positionHint := str "left" |}.

Definition sample_plan : VCScenePlan :=
  {| corePrompt := str "a" ++ ["007"; BACKSLASH; TAB];
     primarySubject := sample_subject;
     secondarySubjects := [sample_subject; sample_subject];
     background :=
       {| environment := [CR]; timeOfDay := []; weather := ["000"] |};
     colorLighting :=
       {| colorTone := Pastel; lighting := Studio; paletteHint := [DQUOTE] |};
     camera :=
       {| angle := TopDown; focalLengthMM := f35; depthOfField := true |};
     composition :=
       {| rule := GoldenRatio; allowCropping := false;
          centerMainSubject := true |};
     artStyle :=
       {| style := LowPoly; brushDetail := BrushHyper; eraHint := ["031"] |};
     negatives :=
       {| visualArtifacts := [LF]; contentExclusions := [] |};
     aspectRatio := Ratio_21_9;
     mode := Outpaint;
     safety := AllowNSFW;
     quality := Ultra |}.

(** * Properties *)

(** ** The loops as list functions *)

Lemma fold_left_append {A} (f : A -> cstring) (l : list A) (acc : cstring) :
  fold_left (fun out c => out ++ f c) l acc = acc ++ flat_map f l.
Proof.
  revert acc. induction l as [|c l IH]; intros acc; simpl.
  - by rewrite app_nil_r.
  - by rewrite IH, app_assoc.
Qed.

Lemma stripControl_fold (s acc : cstring) :
  fold_left (fun out c => if keeps c then push_back out c else out) s acc
  = acc ++ List.filter keeps s.
Proof.
  revert acc. induction s as [|c s IH]; intros acc; simpl.
  - by rewrite app_nil_r.
  - rewrite IH. destruct (keeps c); [|done].
    unfold push_back. by rewrite <- app_assoc.
Qed.

Lemma stripControl_filter (s : cstring) :
  stripControl s = List.filter keeps s.
Proof. apply (stripControl_fold s []). Qed.

Lemma toLowerASCII_map (s : cstring) : toLowerASCII s = lowerChar <$> s.
Proof.
  unfold toLowerASCII, push_back.
  rewrite (fold_left_append (fun c => [lowerChar c])). simpl.
  induction s as [|c s IH]; simpl; [done | by rewrite IH].
Qed.

Lemma jsonEscape_flat_map (s : cstring) : jsonEscape s = flat_map escape_char s.
Proof. unfold jsonEscape. by rewrite fold_left_append. Qed.

Lemma collapse_fold (l out : cstring) (space : bool) :
  (fold_left collapse_step l (out, space)).1 = out ++ collapse_run space l.
Proof.
  revert out space. induction l as [|c l IH]; intros out space; simpl.
  - by rewrite app_nil_r.
  - destruct (isSpaceLike c); [destruct space|]; simpl; rewrite IH;
      unfold push_back; by rewrite <- ?app_assoc.
Qed.

Lemma collapseWhitespace_run (s : cstring) :
  collapseWhitespace s = trim_back (collapse_run false s).
Proof.
  unfold collapseWhitespace.
  pose proof (collapse_fold s [] false) as H.
  destruct (fold_left collapse_step s ([], false)) as [out sp].
  simpl in H. by subst out.
Qed.

(** ** Idempotence of the first two stages *)

Lemma filter_keeps_idem (l : cstring) :
  List.filter keeps (List.filter keeps l) = List.filter keeps l.
Proof.
  induction l as [|c l IH]; simpl; [done|].
  destruct (keeps c) eqn:E; simpl; [|done].
  by rewrite E, IH.
Qed.

Lemma collapse_run_length (space : bool) (l : cstring) :
  length (collapse_run space l) <= length l.
Proof.
  revert space. induction l as [|c l IH]; intros space; simpl; [done|].
  destruct (isSpaceLike c); [destruct space|]; simpl;
    [specialize (IH true) | specialize (IH true) | specialize (IH false)]; lia.
Qed.

Lemma collapse_run_idem (space : bool) (l : cstring) :
  collapse_run space (collapse_run space l) = collapse_run space l.
Proof.
  revert space. induction l as [|c l IH]; intros space; simpl; [done|].
  destruct (isSpaceLike c) eqn:E.
  - destruct space; [apply IH|].
    simpl. by rewrite IH.
  - simpl. by rewrite E, IH.
Qed.

Lemma collapse_run_cons (space : bool) (c : ascii) (r : cstring) :
  collapse_run space (c :: r)
  = if isSpaceLike c
    then if space then collapse_run true r else SPACE :: collapse_run true r
    else c :: collapse_run false r.
Proof. reflexivity. Qed.

(** A string that [collapse_run] leaves alone stays so without its last
    character. *)
Lemma collapse_run_fixed_removelast (space : bool) (l : cstring) :
  collapse_run space l = l ->
  collapse_run space (removelast l) = removelast l.
Proof.
  revert space. induction l as [|c l IH]; intros space H; [done|].
  destruct l as [|d l]; [done|].
  change (removelast (c :: d :: l)) with (c :: removelast (d :: l)).
  rewrite collapse_run_cons in H. rewrite collapse_run_cons.
  destruct (isSpaceLike c); [destruct space|].
  - exfalso.
    pose proof (collapse_run_length true (d :: l)) as Hl.
    rewrite H in Hl. simpl in Hl. lia.
  - injection H as -> H. by rewrite (IH true H).
  - injection H as H. by rewrite (IH false H).
Qed.

(** Such a string does not end in two spaces. *)
Lemma collapse_run_fixed_last (space : bool) (l : cstring) :
  collapse_run space l = l ->
  last l = Some SPACE -> last (removelast l) <> Some SPACE.
Proof.
  revert space. induction l as [|c l IH]; intros space H Hlast; [done|].
  destruct l as [|d l]; [done|].
  change (removelast (c :: d :: l)) with (c :: removelast (d :: l)).
  change (last (c :: d :: l)) with (last (d :: l)) in Hlast.
  assert (exists space', collapse_run space' (d :: l) = d :: l
                         /\ (c = SPACE -> space' = true)) as (space' & H' & Hc).
  { rewrite collapse_run_cons in H.
    destruct (isSpaceLike c) eqn:E; [destruct space|].
    - exfalso.
      pose proof (collapse_run_length true (d :: l)) as Hl.
      rewrite H in Hl. simpl in Hl. lia.
    - injection H as -> H. by exists true.
    - injection H as H. exists false. split; [done|]. intros ->. done. }
  destruct l as [|e l].
  - simpl in *. injection Hlast as ->. intros [= ->].
    rewrite (Hc eq_refl) in H'. done.
  - change (removelast (d :: e :: l)) with (d :: removelast (e :: l)).
    change (last (c :: d :: removelast (e :: l)))
      with (last (d :: removelast (e :: l))).
    apply (IH space' H' Hlast).
Qed.

Lemma trim_back_eq (x : cstring) :
  trim_back x
  = match last x with
    | Some c => if Ascii.eqb c SPACE then removelast x else x
    | None => x
    end.
Proof. reflexivity. Qed.

Lemma trim_back_fixed (space : bool) (x : cstring) :
  collapse_run space x = x ->
  collapse_run space (trim_back x) = trim_back x
  /\ trim_back (trim_back x) = trim_back x.
Proof.
  intros Hfix. rewrite (trim_back_eq x).
  destruct (last x) as [c|] eqn:Hlast.
  - destruct (Ascii.eqb_spec c SPACE) as [->|Hne].
    + split; [by apply collapse_run_fixed_removelast|].
      pose proof (collapse_run_fixed_last _ _ Hfix Hlast) as Hno.
      rewrite trim_back_eq. destruct (last (removelast x)) as [d|]; [|done].
      by destruct (Ascii.eqb_spec d SPACE) as [->|].
    + split; [done|]. rewrite trim_back_eq, Hlast.
      by destruct (Ascii.eqb_spec c SPACE).
  - split; [done|]. by rewrite trim_back_eq, Hlast.
Qed.

Lemma collapseWhitespace_idem (s : cstring) :
  collapseWhitespace (collapseWhitespace s) = collapseWhitespace s.
Proof.
  rewrite !collapseWhitespace_run.
  destruct (trim_back_fixed false _ (collapse_run_idem false s)) as [H1 H2].
  by rewrite H1, H2.
Qed.

(** C9: [collapseWhitespace] and [stripControl] are idempotent: running
    either stage on its own output changes nothing. *)
Theorem C9_collapse_and_strip_idempotent (s : cstring) :
  collapseWhitespace (collapseWhitespace s) = collapseWhitespace s
  /\ stripControl (stripControl s) = stripControl s.
Proof.
  split; [apply collapseWhitespace_idem|].
  rewrite !stripControl_filter. apply filter_keeps_idem.
Qed.

(** ** Substring search *)

Lemma substring_occurs (t s : cstring) :
  substring t s -> exists q, occurs_at t s q.
Proof.
  intros (a & b & ->). exists (length a). intros k c Hk.
  rewrite lookup_app_r by lia.
  replace (length a + k - length a) with k by lia.
  by apply lookup_app_l_Some.
Qed.

Lemma occurs_at_bound (t s : cstring) (q : nat) :
  t <> [] -> occurs_at t s q -> q + length t <= length s.
Proof.
  intros Ht H.
  destruct (lookup_lt_is_Some_2 t (pred (length t))) as [c Hc].
  { destruct t; [done | simpl; lia]. }
  apply H, lookup_lt_Some in Hc. destruct t; [done | simpl in *; lia].
Qed.

Lemma starts_with_spec (t l : cstring) :
  starts_with t l = true <-> occurs_at t l 0.
Proof.
  revert l. induction t as [|a t IH]; intros l; simpl.
  - split; [|done]. by intros _ k c.
  - destruct l as [|b l].
    + split; [done|]. intros H. by specialize (H 0 a eq_refl).
    + rewrite andb_true_iff, Ascii.eqb_eq, IH. split.
      * intros [-> H] [|k] c; simpl; [done | apply H].
      * intros H. split.
        -- specialize (H 0 a eq_refl). by injection H.
        -- intros k c Hk. apply (H (S k) c Hk).
Qed.

Lemma find_at_Some (t l : cstring) (i p : nat) :
  find_at t l i = Some p ->
  exists k, p = i + k /\ occurs_at t l k
            /\ forall k', k' < k -> ~ occurs_at t l k'.
Proof.
  revert i. induction l as [|b l IH]; intros i; simpl.
  - destruct (starts_with t []) eqn:E; [|done]. intros [= <-].
    exists 0. split_and!; [lia | by apply starts_with_spec | lia].
  - destruct (starts_with t (b :: l)) eqn:E.
    + intros [= <-]. exists 0.
      split_and!; [lia | by apply starts_with_spec | lia].
    + intros (k & -> & Hk & Hmin)%IH. exists (S k). split_and!; [lia|..].
      * intros k' c Hc. apply (Hk k' c Hc).
      * intros [|k'] Hlt H.
        -- apply starts_with_spec in H. congruence.
        -- apply (Hmin k'); [lia|]. intros k'' c Hc. apply (H k'' c Hc).
Qed.

Lemma find_at_None (t l : cstring) (i : nat) :
  t <> [] -> find_at t l i = None -> forall k, ~ occurs_at t l k.
Proof.
  intros Ht. revert i. induction l as [|b l IH]; intros i; simpl.
  - intros _ k H. apply occurs_at_bound in H; [|done].
    destruct t; [done | simpl in H; lia].
  - destruct (starts_with t (b :: l)) eqn:E; [done|].
    intros Hnone [|k] H.
    + apply starts_with_spec in H. congruence.
    + apply (IH _ Hnone k). intros k' c Hc. apply (H k' c Hc).
Qed.

Lemma occurs_at_drop (t s : cstring) (pos k : nat) :
  occurs_at t (drop pos s) k <-> occurs_at t s (pos + k).
Proof.
  unfold occurs_at. setoid_rewrite lookup_drop.
  by setoid_rewrite Nat.add_assoc.
Qed.

(** [find] returns the first occurrence at or after [pos]. *)
Lemma find_Some (s t : cstring) (pos p : nat) :
  find s t pos = Some p ->
  pos <= p /\ occurs_at t s p
  /\ forall q, pos <= q < p -> ~ occurs_at t s q.
Proof.
  unfold find. destruct (length s <? pos); [done|].
  intros (k & -> & Hk & Hmin)%find_at_Some.
  split_and!; [lia | by apply occurs_at_drop |].
  intros q Hq H. apply (Hmin (q - pos)); [lia|].
  apply occurs_at_drop. by replace (pos + (q - pos)) with q by lia.
Qed.

(** [npos] means that there is no occurrence at or after [pos]. *)
Lemma find_None (s t : cstring) (pos : nat) :
  t <> [] -> find s t pos = None ->
  forall q, pos <= q -> ~ occurs_at t s q.
Proof.
  unfold find. intros Ht. destruct (length s <? pos) eqn:E.
  - apply Nat.ltb_lt in E. intros _ q Hq H%occurs_at_bound; [|done].
    destruct t; [done | simpl in H; lia].
  - intros Hnone q Hq H. apply (find_at_None _ _ _ Ht Hnone (q - pos)).
    apply occurs_at_drop. by replace (pos + (q - pos)) with q by lia.
Qed.

(** ** Masking *)

Lemma mask1_length (n j : nat) (s : cstring) :
  length (mask1 n j s) = length s.
Proof.
  revert j s. induction n as [|n IH]; intros j s; simpl; [done|].
  destruct (j <? length s); [|done]. by rewrite IH, length_insert.
Qed.

(** The two buffers have the same length, so they are masked alike. *)
Lemma mask_span_pair (n j : nat) (out lower : cstring) :
  length out = length lower ->
  mask_span n j (out, lower) = (mask1 n j out, mask1 n j lower).
Proof.
  revert j out lower. induction n as [|n IH]; intros j out lower Hlen; simpl;
    [done|].
  rewrite <- Hlen. destruct (j <? length out); [|done].
  apply IH. by rewrite !length_insert.
Qed.

(** [mask1] writes [STAR] on [j, j + n) and nothing else. *)
Lemma mask1_lookup_out (n j : nat) (s : cstring) (i : nat) :
  ~ (j <= i < j + n) -> mask1 n j s !! i = s !! i.
Proof.
  revert j s. induction n as [|n IH]; intros j s Hi; simpl; [done|].
  destruct (j <? length s); [|done].
  rewrite IH by lia. apply list_lookup_insert_ne. lia.
Qed.

Lemma mask1_lookup_in (n j : nat) (s : cstring) (i : nat) :
  j <= i < j + n -> mask1 n j s !! i = const STAR <$> s !! i.
Proof.
  revert j s. induction n as [|n IH]; intros j s Hi; simpl; [lia|].
  destruct (j <? length s) eqn:E.
  - apply Nat.ltb_lt in E. destruct (decide (i = j)) as [->|Hne].
    + rewrite mask1_lookup_out by lia.
      rewrite list_lookup_insert_eq by done.
      by destruct (lookup_lt_is_Some_2 s j E) as [c ->].
    + rewrite IH by lia. by rewrite list_lookup_insert_ne by lia.
  - apply Nat.ltb_ge in E. by rewrite (lookup_ge_None_2 s i) by lia.
Qed.

Lemma lowerChar_STAR : lowerChar STAR = STAR.
Proof. reflexivity. Qed.

Lemma mask1_lower (n j : nat) (s : cstring) :
  lowerChar <$> mask1 n j s = mask1 n j (lowerChar <$> s).
Proof.
  revert j s. induction n as [|n IH]; intros j s; simpl; [done|].
  rewrite length_fmap. destruct (j <? length s); [|done].
  by rewrite IH, list_fmap_insert, lowerChar_STAR.
Qed.

(** An occurrence of a term without [STAR] in a masked buffer was there
    before the masking and does not touch the masked span. *)
Lemma occurs_at_mask1 (t s : cstring) (n j q : nat) :
  STAR ∉ t -> occurs_at t (mask1 n j s) q ->
  occurs_at t s q /\ forall k, k < length t -> ~ (j <= q + k < j + n).
Proof.
  intros Hstar H.
  assert (forall k, k < length t -> ~ (j <= q + k < j + n)) as Hout.
  { intros k Hk Hin. destruct (lookup_lt_is_Some_2 t k Hk) as [c Hc].
    pose proof (H k c Hc) as Hm. rewrite mask1_lookup_in in Hm by done.
    destruct (s !! (q + k)); [|done]. injection Hm as <-.
    apply Hstar. by apply list_elem_of_lookup_2 in Hc. }
  split; [|done]. intros k c Hc.
  rewrite <- (mask1_lookup_out n j); [by apply H|].
  apply Hout. by apply lookup_lt_Some in Hc.
Qed.

(** Masking an occurrence of [t] removes every occurrence that starts
    inside it. *)
Lemma mask1_kills (t s : cstring) (p q : nat) :
  STAR ∉ t -> t <> [] -> p + length t <= length s ->
  p <= q < p + length t -> ~ occurs_at t (mask1 (length t) p s) q.
Proof.
  intros Hstar Ht Hlen Hq [_ H]%occurs_at_mask1; [|done].
  apply (H 0); [destruct t; [done | simpl; lia] | lia].
Qed.

(** ** The log of matches *)

(** The log is a ghost: dropping it gives the loops of the source. *)
Lemma scan_term_log_erase (fuel : nat) (t : cstring) (pos : nat)
    (st : buffers) :
  scan_term fuel t pos st = fst <$> scan_term_log fuel t pos st.
Proof.
  revert pos st. induction fuel as [|fuel IH]; intros pos st; simpl; [done|].
  destruct (find st.2 t pos); [|done].
  rewrite IH. by destruct (scan_term_log _ _ _ _) as [[? ?]|].
Qed.

Lemma scan_terms_log_erase (fuel : nat) (ts : list cstring) (st : buffers) :
  scan_terms fuel ts st = fst <$> scan_terms_log fuel ts st.
Proof.
  revert st. induction ts as [|t ts IH]; intros st; simpl; [done|].
  rewrite scan_term_log_erase.
  destruct (scan_term_log _ _ _ _) as [[st' ps]|]; simpl; [|done].
  rewrite IH. by destruct (scan_terms_log _ _ _) as [[? ?]|].
Qed.

Lemma apply_masks_app (a b : list event) (s : cstring) :
  apply_masks (a ++ b) s = apply_masks b (apply_masks a s).
Proof. apply fold_left_app. Qed.

Lemma apply_masks_length (evs : list event) (s : cstring) :
  length (apply_masks evs s) = length s.
Proof.
  revert s. induction evs as [|e evs IH]; intros s; simpl; [done|].
  unfold apply_masks in IH. by rewrite IH, mask1_length.
Qed.

Lemma apply_masks_lookup_out (evs : list event) (s : cstring) (i : nat) :
  ~ covered evs i -> apply_masks evs s !! i = s !! i.
Proof.
  revert s. induction evs as [|e evs IH]; intros s Hi; simpl; [done|].
  unfold covered in Hi. rewrite Exists_cons in Hi.
  unfold apply_masks in IH. rewrite IH by tauto.
  apply mask1_lookup_out. unfold in_span in Hi. tauto.
Qed.

Lemma apply_masks_lookup_in (evs : list event) (s : cstring) (i : nat) :
  covered evs i -> apply_masks evs s !! i = const STAR <$> s !! i.
Proof.
  revert s. induction evs as [|e evs IH]; intros s Hi; simpl.
  - by apply Exists_nil in Hi.
  - unfold apply_masks in IH.
    destruct (decide (covered evs i)) as [Hc|Hc].
    + rewrite IH by done.
      destruct (decide (in_span e i)) as [He|He].
      * rewrite mask1_lookup_in by done. by destruct (s !! i).
      * by rewrite mask1_lookup_out by done.
    + pose proof (apply_masks_lookup_out evs) as Hout.
      unfold apply_masks in Hout. rewrite Hout by done.
      apply mask1_lookup_in. apply Exists_cons in Hi as [He|?]; done.
Qed.

Lemma apply_masks_lower (evs : list event) (s : cstring) :
  lowerChar <$> apply_masks evs s = apply_masks evs (lowerChar <$> s).
Proof.
  revert s. induction evs as [|e evs IH]; intros s; simpl; [done|].
  unfold apply_masks in IH. by rewrite IH, mask1_lower.
Qed.

Lemma occurs_at_apply_masks (t s : cstring) (evs : list event) (q : nat) :
  STAR ∉ t -> occurs_at t (apply_masks evs s) q ->
  occurs_at t s q /\ forall k, k < length t -> ~ covered evs (q + k).
Proof.
  intros Hstar. revert s. induction evs as [|e evs IH]; intros s; simpl.
  - intros H. split; [done|]. intros k _ Hc. by apply Exists_nil in Hc.
  - intros [H1 H2]%IH. apply occurs_at_mask1 in H1 as [H1 H3]; [|done].
    split; [done|]. intros k Hk [He|Hc]%Exists_cons.
    + by apply (H3 k Hk).
    + by apply (H2 k Hk).
Qed.

Lemma log_ok_snoc (s0 : cstring) (evs : list event) (t : cstring) (p : nat) :
  STAR ∉ t -> log_ok s0 evs ->
  occurs_at t (apply_masks evs (lowerChar <$> s0)) p ->
  log_ok s0 (evs ++ [(t, p)]).
Proof.
  intros Hstar Hok [H1 H2]%occurs_at_apply_masks; [|done].
  intros k e Hk. destruct (decide (k < length evs)) as [Hlt|Hge].
  - rewrite lookup_app_l in Hk by done.
    rewrite take_app_le by lia. by apply Hok.
  - rewrite lookup_app_r in Hk by lia.
    destruct (k - length evs) as [|?] eqn:E; [|done].
    injection Hk as <-. assert (k = length evs) as -> by lia.
    rewrite take_app_length. split; [done|].
    intros i [Hi1 Hi2]. simpl in *.
    replace i with (p + (i - p)) by lia. apply H2. lia.
Qed.


(** ** The scanning loops *)

Section Scan.

(** The input of [stripNSFWMarkers]. *)
Variable s0 : cstring.

Local Abbreviation L0 := (lowerChar <$> s0).

Lemma scan_term_log_spec (t : cstring) (fuel pos : nat) (evs : list event) :
  good_term t ->
  pos <= length s0 -> length s0 - pos < fuel ->
  (forall q, q < pos -> ~ occurs_at t (apply_masks evs L0) q) ->
  log_ok s0 evs ->
  exists ps,
    let evs' := evs ++ term_events t ps in
    scan_term_log fuel t pos (apply_masks evs s0, apply_masks evs L0)
    = Some ((apply_masks evs' s0, apply_masks evs' L0), ps)
    /\ log_ok s0 evs'
    /\ (forall q, ~ occurs_at t (apply_masks evs' L0) q)
    /\ Forall (fun p => pos <= p) ps
    /\ resumes_after t ps.
Proof.
  intros [Hne Hstar]. revert pos evs.
  induction fuel as [|fuel' IH]; intros pos evs Hpos Hfuel Hbefore Hok;
    [lia|].
  assert (length (apply_masks evs L0) = length s0) as HlenL.
  { by rewrite apply_masks_length, length_fmap. }
  cbn [scan_term_log snd].
  destruct (find (apply_masks evs L0) t pos) as [p|] eqn:Hfind.
  - apply find_Some in Hfind as (Hp & Hocc & Hmin).
    pose proof (occurs_at_bound _ _ _ Hne Hocc) as Hbound.
    assert (0 < length t) as Htlen by (destruct t; [done | simpl; lia]).
    rewrite mask_span_pair by (by rewrite !apply_masks_length, length_fmap).
    assert (forall x, mask1 (length t) p (apply_masks evs x)
                      = apply_masks (evs ++ [(t, p)]) x) as Hsnoc.
    { intros x. by rewrite apply_masks_app. }
    rewrite !Hsnoc.
    destruct (IH (p + length t) (evs ++ [(t, p)]))
      as (ps & Hrun & Hok' & Hnone & Hge & Hsorted).
    + lia.
    + lia.
    + intros q Hq. rewrite <- Hsnoc.
      destruct (decide (q < p)) as [Hlt|Hge].
      * intros [H _]%occurs_at_mask1; [|done]. revert H.
        destruct (decide (q < pos)); [by apply Hbefore | apply Hmin; lia].
      * apply mask1_kills; [done | done | lia | lia].
    + by apply log_ok_snoc.
    + exists (p :: ps). cbn zeta in *.
      replace (evs ++ term_events t (p :: ps))
        with ((evs ++ [(t, p)]) ++ term_events t ps)
        by (by rewrite <- app_assoc).
      rewrite Hrun. split_and!; [done | done | done | |].
      * constructor; [done|]. eapply Forall_impl; [exact Hge|].
        simpl. lia.
      * constructor; [done|]. eapply Forall_impl; [exact Hge|].
        simpl. lia.
  - exists []. cbn zeta. unfold term_events. simpl. rewrite app_nil_r.
    split_and!; [done | done | | constructor | constructor].
    intros q. destruct (decide (q < pos)); [by apply Hbefore|].
    apply (find_None _ _ _ Hne Hfind). lia.
Qed.

Lemma scan_terms_log_spec (ts : list cstring) (fuel : nat)
    (evs : list event) :
  Forall good_term ts ->
  length s0 < fuel ->
  log_ok s0 evs ->
  exists pss,
    let evs' := evs ++ all_events ts pss in
    length pss = length ts
    /\ scan_terms_log fuel ts (apply_masks evs s0, apply_masks evs L0)
       = Some ((apply_masks evs' s0, apply_masks evs' L0),
               all_events ts pss)
    /\ log_ok s0 evs'
    /\ Forall (fun t => forall q, ~ occurs_at t (apply_masks evs' L0) q) ts
    /\ Forall2 resumes_after ts pss.
Proof.
  intros Hgood Hfuel. revert evs.
  induction Hgood as [|t ts Ht Hts IH]; intros evs Hok.
  - exists []. cbn. rewrite app_nil_r. by split_and!.
  - destruct (scan_term_log_spec t fuel 0 evs Ht)
      as (ps & Hrun & Hok1 & Hnone & _ & Hsorted); [lia | lia | lia | done |].
    destruct (IH _ Hok1) as (pss & Hlen & Hruns & Hok2 & Hnones & Hsorteds).
    exists (ps :: pss). cbn zeta in *.
    replace (evs ++ all_events (t :: ts) (ps :: pss))
      with ((evs ++ term_events t ps) ++ all_events ts pss)
      by (unfold all_events; simpl; by rewrite <- app_assoc).
    split_and!.
    + simpl. by rewrite Hlen.
    + cbn [scan_terms_log]. rewrite Hrun, Hruns. done.
    + done.
    + constructor; [|done]. intros q. rewrite apply_masks_app.
      intros [H _]%occurs_at_apply_masks; [|apply Ht]. by apply (Hnone q).
    + by constructor.
Qed.

End Scan.

(** ** [stripNSFWMarkers] *)

Lemma kBlockList_good : Forall good_term kBlockList.
Proof.
  unfold kBlockList, good_term.
  repeat constructor; try discriminate;
    intros H; vm_compute in H;
    by repeat (inversion_clear H as [|? ? ? H']; rename H' into H).
Qed.

Lemma log_ok_nil (s : cstring) : log_ok s [].
Proof. by intros k e. Qed.

(** The loops of [stripNSFWMarkers] end within the fuel of the model; the
    output is the input under the masks of the log, and the log has the
    shape of the two nested loops. *)
Lemma stripNSFW_run (s : cstring) :
  exists pss,
    length pss = length kBlockList
    /\ stripNSFW_matches s = all_events kBlockList pss
    /\ Forall2 resumes_after kBlockList pss
    /\ stripNSFWMarkers_fuel (S (length s)) s
       = Some (apply_masks (stripNSFW_matches s) s)
    /\ stripNSFWMarkers s = apply_masks (stripNSFW_matches s) s
    /\ log_ok s (stripNSFW_matches s)
    /\ Forall (fun t => forall q,
                 ~ occurs_at t (lowerChar <$> stripNSFWMarkers s) q)
         kBlockList.
Proof.
  destruct (scan_terms_log_spec s kBlockList (S (length s)) []
              kBlockList_good (Nat.lt_succ_diag_r _) (log_ok_nil s))
    as (pss & Hlen & Hrun & Hok & Hnone & Hsorted).
  cbn zeta in *. rewrite app_nil_l in Hrun, Hok, Hnone.
  change (apply_masks [] s) with s in Hrun.
  change (apply_masks [] (lowerChar <$> s)) with (lowerChar <$> s) in Hrun.
  assert (stripNSFW_matches s = all_events kBlockList pss) as Hm.
  { unfold stripNSFW_matches. by rewrite toLowerASCII_map, Hrun. }
  assert (stripNSFWMarkers_fuel (S (length s)) s
          = Some (apply_masks (stripNSFW_matches s) s)) as Hfuel.
  { unfold stripNSFWMarkers_fuel.
    rewrite scan_terms_log_erase, toLowerASCII_map, Hrun, Hm. done. }
  assert (stripNSFWMarkers s = apply_masks (stripNSFW_matches s) s) as Hs.
  { unfold stripNSFWMarkers. by rewrite Hfuel. }
  exists pss. split_and!; try done.
  - by rewrite Hm.
  - rewrite Hs, Hm, apply_masks_lower. done.
Qed.

(** More fuel does not change the result of a loop that has ended. *)
Lemma scan_term_mono (fuel fuel' : nat) (t : cstring) (pos : nat)
    (st r : buffers) :
  fuel <= fuel' ->
  scan_term fuel t pos st = Some r -> scan_term fuel' t pos st = Some r.
Proof.
  revert fuel' pos st. induction fuel as [|fuel IH]; intros fuel' pos st Hle;
    [done|].
  destruct fuel' as [|fuel']; [lia|]. simpl.
  destruct (find st.2 t pos); [|done]. apply IH. lia.
Qed.

Lemma scan_terms_mono (fuel fuel' : nat) (ts : list cstring)
    (st r : buffers) :
  fuel <= fuel' ->
  scan_terms fuel ts st = Some r -> scan_terms fuel' ts st = Some r.
Proof.
  intros Hle. revert st. induction ts as [|t ts IH]; intros st; simpl; [done|].
  destruct (scan_term fuel t 0 st) as [st'|] eqn:E; [|done].
  rewrite (scan_term_mono _ _ _ _ _ _ Hle E). apply IH.
Qed.

Lemma stripNSFWMarkers_fuel_enough (s : cstring) (fuel : nat) :
  S (length s) <= fuel ->
  stripNSFWMarkers_fuel fuel s = Some (stripNSFWMarkers s).
Proof.
  intros Hle.
  destruct (stripNSFW_run s) as (pss & _ & _ & _ & Hfuel & Hs & _).
  rewrite Hs. revert Hfuel. unfold stripNSFWMarkers_fuel.
  destruct (scan_terms (S (length s)) _ _) as [[out lower]|] eqn:E; [|done].
  by rewrite (scan_terms_mono _ _ _ _ _ Hle E).
Qed.

Lemma stripNSFWMarkers_length (s : cstring) :
  length (stripNSFWMarkers s) = length s.
Proof.
  destruct (stripNSFW_run s) as (pss & _ & _ & _ & _ & -> & _).
  apply apply_masks_length.
Qed.

(** Every byte of the output is the byte of the input or a [STAR]. *)
Lemma stripNSFWMarkers_lookup (s : cstring) (i : nat) (c : ascii) :
  stripNSFWMarkers s !! i = Some c -> c = STAR \/ s !! i = Some c.
Proof.
  destruct (stripNSFW_run s) as (pss & _ & _ & _ & _ & -> & _).
  destruct (decide (covered (stripNSFW_matches s) i)) as [Hc|Hc].
  - rewrite apply_masks_lookup_in by done.
    destruct (s !! i); [|done]. intros [= <-]. by left.
  - rewrite apply_masks_lookup_out by done. by right.
Qed.

Lemma event_in_all_events (ts : list cstring) (pss : list (list nat))
    (e : event) :
  e ∈ all_events ts pss -> e.1 ∈ ts.
Proof.
  revert pss. induction ts as [|t ts IH]; intros [|ps pss]; simpl;
    try by intros ?%elem_of_nil.
  unfold all_events. simpl. intros [H|H]%elem_of_app.
  - apply list_elem_of_fmap in H as (p & -> & _). simpl. left.
  - right. by apply (IH pss).
Qed.

(** A match of the lowercased input is a match of the input without
    regard to case. *)
Lemma occurs_at_lower (t s : cstring) (p : nat) :
  occurs_at t (lowerChar <$> s) p ->
  toLowerASCII (take (length t) (drop p s)) = t.
Proof.
  intros H. rewrite toLowerASCII_map. apply list_eq. intros k.
  rewrite list_lookup_fmap.
  destruct (decide (k < length t)) as [Hk|Hk].
  - rewrite lookup_take_lt, lookup_drop by done.
    destruct (lookup_lt_is_Some_2 t k Hk) as [c Hc].
    rewrite Hc. apply H in Hc. by rewrite list_lookup_fmap in Hc.
  - rewrite lookup_take_ge by lia. by rewrite lookup_ge_None_2 by lia.
Qed.

(** ** [sanitizePromptForVision] *)

Lemma sanitize_eq (raw : cstring) :
  sanitizePromptForVision raw
  = if bool_decide (raw = []) then Throw InvalidInput
    else if bool_decide (processed raw = []) then Throw SanitizationExhausted
    else Ok (truncated (processed raw)).
Proof. reflexivity. Qed.

#[global] Opaque kMaxPromptBytes.

Lemma sanitize_Ok (raw out : cstring) :
  sanitizePromptForVision raw = Ok out ->
  raw <> [] /\ processed raw <> [] /\ out = truncated (processed raw).
Proof.
  rewrite sanitize_eq. case_bool_decide; [done|].
  case_bool_decide; [done|]. by intros [= <-].
Qed.

Lemma kMaxPromptBytes_pos : 0 < kMaxPromptBytes.
Proof. apply Nat.ltb_lt. by vm_compute. Qed.

Lemma truncated_length (s : cstring) : length (truncated s) <= kMaxPromptBytes.
Proof.
  unfold truncated, resize_down.
  destruct (kMaxPromptBytes <? length s) eqn:E.
  - rewrite length_take. lia.
  - by apply Nat.ltb_ge in E.
Qed.

Lemma truncated_nonempty (s : cstring) : s <> [] -> truncated s <> [].
Proof.
  unfold truncated, resize_down. intros Hs.
  destruct (kMaxPromptBytes <? length s) eqn:E; [|done].
  apply Nat.ltb_lt in E. pose proof kMaxPromptBytes_pos as Hpos.
  intros H%(f_equal length). rewrite length_take in H. simpl in H. lia.
Qed.

(** C5: the loops of [stripNSFWMarkers] end, on any fuel above the length
    of the input, with a string of the length of the input;
    every match of the log is a blocklist term standing in the input
    without regard to case, every byte of a matched span is [*] at its own
    position and every other byte is the byte of the input; so
    ["a NUDE cat"] becomes ["a **** cat"]. *)
Theorem C5_redaction_masks_in_place (s : cstring) :
  (forall fuel, S (length s) <= fuel ->
     stripNSFWMarkers_fuel fuel s = Some (stripNSFWMarkers s))
  /\ length (stripNSFWMarkers s) = length s
  /\ (forall e, e ∈ stripNSFW_matches s ->
        e.1 ∈ kBlockList
        /\ e.2 + length e.1 <= length s
        /\ toLowerASCII (take (length e.1) (drop e.2 s)) = e.1)
  /\ (forall i, i < length s -> covered (stripNSFW_matches s) i ->
        stripNSFWMarkers s !! i = Some STAR)
  /\ (forall i, ~ covered (stripNSFW_matches s) i ->
        stripNSFWMarkers s !! i = s !! i)
  /\ stripNSFW_matches (str "a NUDE cat") = [(str "nude", 2)]
  /\ stripNSFWMarkers (str "a NUDE cat") = str "a **** cat".
Proof.
  destruct (stripNSFW_run s) as (pss & _ & Hm & _ & Hfuel & Hs & Hok & _).
  split_and!.
  - intros fuel. apply stripNSFWMarkers_fuel_enough.
  - apply stripNSFWMarkers_length.
  - intros e He. pose proof He as [k Hk]%list_elem_of_lookup_1.
    destruct (Hok k e Hk) as [Hocc _]. split_and!.
    + rewrite Hm in He. by apply event_in_all_events in He.
    + assert (good_term e.1) as [Hne _].
      { rewrite Hm in He. apply event_in_all_events in He.
        by apply (proj1 (Forall_forall _ _) kBlockList_good). }
      apply occurs_at_bound in Hocc; [|done]. by rewrite length_fmap in Hocc.
    + by apply occurs_at_lower.
  - intros i Hi Hc. rewrite Hs, apply_masks_lookup_in by done.
    by destruct (lookup_lt_is_Some_2 s i Hi) as [c ->].
  - intros i Hc. by rewrite Hs, apply_masks_lookup_out.
  - by vm_compute.
  - by vm_compute.
Qed.

Lemma substring_take (t s : cstring) (n : nat) :
  substring t (take n s) -> substring t s.
Proof.
  intros (a & b & H). exists a, (b ++ drop n s).
  rewrite <- (take_drop n s) at 1. rewrite H. by rewrite <- !app_assoc.
Qed.

(** ** Letter case of a match *)

Lemma lowerChar_idem (c : ascii) : lowerChar (lowerChar c) = lowerChar c.
Proof. by destruct c as [[] [] [] [] [] [] [] []]. Qed.

Lemma lowerChar_not_upper (c : ascii) : isUpper (lowerChar c) = false.
Proof. by destruct c as [[] [] [] [] [] [] [] []]. Qed.

Lemma lowerChar_id (c : ascii) : isUpper c = false -> lowerChar c = c.
Proof. by destruct c as [[] [] [] [] [] [] [] []]. Qed.

Lemma lowerChar_upper (c : ascii) :
  isUpper c = true -> uchar (lowerChar c) = (uchar c + 32)%N.
Proof. by destruct c as [[] [] [] [] [] [] [] []]. Qed.

Lemma kBlockList_lower :
  Forall (Forall (fun c => isLower c = true)) kBlockList.
Proof. unfold kBlockList. repeat constructor. Qed.

Lemma lower_not_upper (c : ascii) : isLower c = true -> isUpper c = false.
Proof. by destruct c as [[] [] [] [] [] [] [] []]. Qed.

Lemma uchar_inj (c d : ascii) : uchar c = uchar d -> c = d.
Proof.
  unfold uchar. intros H.
  by rewrite <- (ascii_N_embedding c), <- (ascii_N_embedding d), H.
Qed.

(** A byte that is a lowercase letter up to case has that letter as its
    lowercase. *)
Lemma same_letter_lower (c d : ascii) :
  isLower d = true -> same_letter c d -> lowerChar c = d.
Proof.
  intros Hd [->|[[Hc Hu]|[Hu _]]].
  - apply lowerChar_id. by apply lower_not_upper.
  - apply uchar_inj. by rewrite lowerChar_upper.
  - by rewrite (lower_not_upper d Hd) in Hu.
Qed.

Lemma substring_nocase_lower (t s : cstring) :
  Forall (fun c => isLower c = true) t ->
  substring_nocase t s -> substring t (lowerChar <$> s).
Proof.
  intros Ht (a & m & b & -> & Hm).
  exists (lowerChar <$> a), (lowerChar <$> b). rewrite !fmap_app.
  do 2 f_equal. clear a b.
  induction Hm as [|c d m t Hcd Hm IH]; [done|].
  apply list.Forall_cons in Ht as [Hd Ht].
  rewrite fmap_cons, (same_letter_lower c d Hd Hcd). f_equal. by apply IH.
Qed.

Lemma stripNSFWMarkers_no_term (s t : cstring) :
  t ∈ kBlockList -> ~ substring t (toLowerASCII (stripNSFWMarkers s)).
Proof.
  intros Ht [q Hq]%substring_occurs. rewrite toLowerASCII_map in Hq.
  destruct (stripNSFW_run s) as (pss & _ & _ & _ & _ & _ & _ & Hnone).
  by apply (proj1 (list.Forall_forall _ _) Hnone t Ht q).
Qed.

Lemma sanitize_no_term (raw out t : cstring) :
  t ∈ kBlockList -> sanitizePromptForVision raw = Ok out ->
  ~ substring t (toLowerASCII out).
Proof.
  intros Ht (_ & _ & ->)%sanitize_Ok.
  unfold truncated.
  destruct (kMaxPromptBytes <? length _);
    [|by apply stripNSFWMarkers_no_term].
  unfold resize_down. rewrite toLowerASCII_map, fmap_take.
  intros H%substring_take. rewrite <- toLowerASCII_map in H.
  by apply stripNSFWMarkers_no_term in H.
Qed.

(** C10: no blocklist term is a substring, in any letter case, of the
    output of [stripNSFWMarkers], nor of the result of a sanitization that
    succeeds.  Letter case is measured twice: through [toLowerASCII], and
    byte by byte, an uppercase letter standing for the letter 32 above it;
    so ["a NUDE cat"] becomes ["a **** cat"]. *)
Theorem C10_no_blocklist_term_survives (raw t : cstring) :
  t ∈ kBlockList ->
  ~ substring t (toLowerASCII (stripNSFWMarkers raw))
  /\ (forall out, sanitizePromptForVision raw = Ok out ->
                  ~ substring t (toLowerASCII out))
  /\ ~ substring_nocase t (stripNSFWMarkers raw)
  /\ (forall out, sanitizePromptForVision raw = Ok out ->
                  ~ substring_nocase t out)
  /\ stripNSFWMarkers (str "a NUDE cat") = str "a **** cat"
  /\ sanitizePromptForVision (str "Erotic pOrN, nsfw!")
     = Ok (str "****** ****, ****!").
Proof.
  intros Ht.
  pose proof (proj1 (list.Forall_forall _ _) kBlockList_lower t Ht) as Hlow.
  split_and!.
  - by apply stripNSFWMarkers_no_term.
  - intros out. by apply sanitize_no_term.
  - intros H%substring_nocase_lower; [|done].
    rewrite <- toLowerASCII_map in H.
    by apply stripNSFWMarkers_no_term in H.
  - intros out Hout H%substring_nocase_lower; [|done].
    rewrite <- toLowerASCII_map in H.
    by apply (sanitize_no_term raw out t Ht Hout).
  - by vm_compute.
  - by vm_compute.
Qed.

Lemma C10_no_blocklist_term_survives_witness :
  str "nude" ∈ kBlockList
  /\ ~ substring (str "nude")
         (toLowerASCII (stripNSFWMarkers (str "a NUDE cat")))
  /\ (forall out, sanitizePromptForVision (str "a NUDE cat") = Ok out ->
                  ~ substring (str "nude") (toLowerASCII out))
  /\ ~ substring_nocase (str "nude") (stripNSFWMarkers (str "a NUDE cat"))
  /\ (forall out, sanitizePromptForVision (str "a NUDE cat") = Ok out ->
                  ~ substring_nocase (str "nude") out)
  /\ stripNSFWMarkers (str "a NUDE cat") = str "a **** cat"
  /\ sanitizePromptForVision (str "Erotic pOrN, nsfw!")
     = Ok (str "****** ****, ****!").
Proof.
  assert (str "nude" ∈ kBlockList) as H by (right; left).
  split; [exact H|].
  exact (C10_no_blocklist_term_survives (str "a NUDE cat") (str "nude") H).
Defined.



(** ** Bytes of the sanitized prompt *)

Lemma stripControl_keeps (s : cstring) :
  Forall (fun c => keeps c = true) (stripControl s).
Proof.
  rewrite stripControl_filter. apply list.Forall_forall. intros c Hc.
  apply list_elem_of_In, filter_In in Hc. tauto.
Qed.

(** A byte that [stripControl] keeps and that is no white space is
    printable. *)
Lemma keeps_printable (c : ascii) :
  keeps c = true -> isSpaceLike c = false -> isAsciiPrintable c = true.
Proof.
  unfold keeps, isSpaceLike. destruct (isAsciiPrintable c); [done|]. simpl.
  destruct (Ascii.eqb c LF), (Ascii.eqb c TAB), (Ascii.eqb c SPACE); done.
Qed.

Lemma collapse_run_printable (space : bool) (l : cstring) :
  Forall (fun c => keeps c = true) l ->
  Forall (fun c => isAsciiPrintable c = true) (collapse_run space l).
Proof.
  intros H. revert space. induction H as [|c l Hc Hl IH]; intros space;
    simpl; [constructor|].
  destruct (isSpaceLike c) eqn:E.
  - destruct space; [apply IH|]. constructor; [done | apply IH].
  - constructor; [by apply keeps_printable | apply IH].
Qed.

Lemma Forall_removelast {A} (P : A -> Prop) (l : list A) :
  Forall P l -> Forall P (removelast l).
Proof.
  induction 1 as [|x l Hx Hl IH]; simpl; [constructor|].
  destruct l; [constructor | by constructor].
Qed.

Lemma collapseWhitespace_printable (s : cstring) :
  Forall (fun c => keeps c = true) s ->
  Forall (fun c => isAsciiPrintable c = true) (collapseWhitespace s).
Proof.
  intros H%(collapse_run_printable false).
  rewrite collapseWhitespace_run, trim_back_eq.
  destruct (last _) as [c|]; [|done].
  destruct (Ascii.eqb c SPACE); [by apply Forall_removelast | done].
Qed.

Lemma stripNSFWMarkers_printable (s : cstring) :
  Forall (fun c => isAsciiPrintable c = true) s ->
  Forall (fun c => isAsciiPrintable c = true) (stripNSFWMarkers s).
Proof.
  intros H. apply Forall_lookup. intros i c Hc.
  apply stripNSFWMarkers_lookup in Hc as [->|Hc]; [done|].
  by apply (proj1 (Forall_lookup _ _) H i c).
Qed.

Lemma processed_printable (raw : cstring) :
  Forall (fun c => isAsciiPrintable c = true) (truncated (processed raw)).
Proof.
  assert (Forall (fun c => isAsciiPrintable c = true) (processed raw)) as H.
  { apply stripNSFWMarkers_printable, collapseWhitespace_printable,
      stripControl_keeps. }
  unfold truncated, resize_down.
  destruct (_ <? _); [by apply Forall_take | done].
Qed.

Lemma isAsciiPrintable_range (c : ascii) :
  isAsciiPrintable c = true <-> (32 <= uchar c <= 126)%N.
Proof.
  unfold isAsciiPrintable. cbv zeta.
  rewrite andb_true_iff, !N.leb_le. done.
Qed.

(** C6: when [sanitizePromptForVision] succeeds, the scene plan is built
    with its result as [corePrompt], and that string is not empty, has at
    most 8000 bytes, and each of its bytes is printable ASCII (32 to 126),
    a tab or a newline. *)
Theorem C6_core_prompt_invariants (raw out : cstring) (m : VCIGMode)
    (sf : VCSafetyProfile) (q : VCQualityPreset) :
  sanitizePromptForVision raw = Ok out ->
  (exists plan, buildScenePlanFromPrompt raw m sf q = Ok plan
                /\ corePrompt plan = out)
  /\ out <> []
  /\ length out <= kMaxPromptBytes
  /\ kMaxPromptBytes = 8000
  /\ Forall (fun c => (32 <= uchar c <= 126)%N \/ c = TAB \/ c = LF) out.
Proof.
  intros Hs. split_and!.
  - unfold buildScenePlanFromPrompt. rewrite Hs. eexists. split; done.
  - apply sanitize_Ok in Hs as (_ & Hne & ->). by apply truncated_nonempty.
  - apply sanitize_Ok in Hs as (_ & _ & ->). apply truncated_length.
  - reflexivity.
  - apply sanitize_Ok in Hs as (_ & _ & ->).
    eapply Forall_impl; [apply processed_printable|].
    intros c Hc. left. by apply isAsciiPrintable_range.
Qed.

Lemma C6_core_prompt_invariants_witness :
  sanitizePromptForVision (str "a  NUDE" ++ [TAB] ++ str "cat ")
  = Ok (str "a **** cat")
  /\ (exists plan,
        buildScenePlanFromPrompt (str "a  NUDE" ++ [TAB] ++ str "cat ")
          TextToImage Safe High = Ok plan
        /\ corePrompt plan = str "a **** cat")
  /\ str "a **** cat" <> []
  /\ length (str "a **** cat") <= kMaxPromptBytes
  /\ kMaxPromptBytes = 8000
  /\ Forall (fun c => (32 <= uchar c <= 126)%N \/ c = TAB \/ c = LF)
       (str "a **** cat").
Proof.
  assert (sanitizePromptForVision (str "a  NUDE" ++ [TAB] ++ str "cat ")
          = Ok (str "a **** cat")) as H by (by vm_compute).
  split; [exact H|].
  exact (C6_core_prompt_invariants _ _ TextToImage Safe High H).
Defined.

(** C1: [sanitizePromptForVision] throws [InvalidInput] exactly when the
    raw prompt is empty; for a non-empty raw prompt it throws
    [SanitizationExhausted] exactly when [stripControl],
    [collapseWhitespace] and [stripNSFWMarkers] leave nothing; when it
    throws, the scene plan builder and the entry point throw the same error
    and return neither a plan nor JSON; in every other case it returns the
    processed string, cut to 8000 bytes. *)
Theorem C1_sanitize_failures (to_string_float : float32 -> cstring)
    (raw : cstring) (m : VCIGMode) (sf : VCSafetyProfile)
    (q : VCQualityPreset) :
  (sanitizePromptForVision raw = Throw InvalidInput <-> raw = [])
  /\ (raw <> [] ->
      (sanitizePromptForVision raw = Throw SanitizationExhausted
       <-> stripNSFWMarkers (collapseWhitespace (stripControl raw)) = []))
  /\ (forall e, sanitizePromptForVision raw = Throw e ->
        buildScenePlanFromPrompt raw m sf q = Throw e
        /\ BuildSemanticIGSpec to_string_float raw m sf q = Throw e)
  /\ (raw <> [] ->
      stripNSFWMarkers (collapseWhitespace (stripControl raw)) <> [] ->
      sanitizePromptForVision raw
      = Ok (truncated
              (stripNSFWMarkers (collapseWhitespace (stripControl raw)))))
  /\ (forall out, sanitizePromptForVision raw = Ok out ->
        exists r, BuildSemanticIGSpec to_string_float raw m sf q = Ok r
                  /\ corePrompt (scene r) = out
                  /\ jsonControl r
                     = serializeScenePlanToJSON to_string_float (scene r)).
Proof.
  fold (processed raw). rewrite sanitize_eq. split_and!.
  - repeat case_bool_decide; split; done.
  - intros Hne. repeat case_bool_decide; split; done.
  - intros e He. unfold BuildSemanticIGSpec, buildScenePlanFromPrompt.
    rewrite sanitize_eq, He. done.
  - intros Hne Hp. by repeat case_bool_decide.
  - intros out Hout. unfold BuildSemanticIGSpec, buildScenePlanFromPrompt.
    rewrite sanitize_eq, Hout. eexists. split; [reflexivity|]. done.
Qed.

(** ** The serializer and the document of the specification *)




Section SerializerSpec.

Variable to_string_float : float32 -> cstring.



End SerializerSpec.


(** ** Scenarios *)

(** Scenario A as the specification gives it fails: the plan does not
    have the aspect ratio 16:9. *)
Lemma C3_scenario_A_aspect_is_not_16_9 :
  exists plan,
    buildScenePlanFromPrompt promptA TextToImage Safe High = Ok plan
    /\ toString_VCAspectRatio (aspectRatio plan) <> str "16:9".
Proof. eexists. split; [by vm_compute | by vm_compute]. Qed.

(** C3, amended: for the prompt of scenario A with text-to-image, safe and
    high, the plan has the aspect ratio 9:16, because the word "portrait"
    is tested before "cinematic" and "16:9"; the lighting is soft, the
    composition rule is rule-of-thirds and the camera angle is
    eye-level. *)
Theorem C3_scenario_A :
  exists plan,
    buildScenePlanFromPrompt promptA TextToImage Safe High = Ok plan
    /\ contains (toLowerASCII (corePrompt plan)) "portrait" = true
    /\ aspectRatio plan = Ratio_9_16
    /\ toString_VCAspectRatio (aspectRatio plan) = str "9:16"
    /\ toString_VCLighting (lighting (colorLighting plan)) = str "soft"
    /\ toString_VCCompositionRule (rule (composition plan))
       = str "rule-of-thirds"
    /\ toString_VCCameraAngle (angle (camera plan)) = str "eye-level".
Proof. eexists. split; [by vm_compute|]. split_and!; by vm_compute. Qed.

(** Scenario D as the specification gives it fails: the subject name is
    not "dragon". *)
Lemma C4_scenario_D_subject_is_not_dragon :
  exists plan,
    buildScenePlanFromPrompt promptD TextToImage Safe High = Ok plan
    /\ name (primarySubject plan) <> str "dragon".
Proof. eexists. split; [by vm_compute | by vm_compute]. Qed.

(** C4, amended: for the prompt of scenario D the plan has the camera
    angle close-up with depth of field, the environment forest, the weather
    foggy, the time of day night, the art style anime and the aspect ratio
    9:16; the subject name is the last token that is no stop word, "9:16". *)
Theorem C4_scenario_D :
  exists plan,
    buildScenePlanFromPrompt promptD TextToImage Safe High = Ok plan
    /\ toString_VCCameraAngle (angle (camera plan)) = str "close-up"
    /\ depthOfField (camera plan) = true
    /\ environment (background plan) = str "forest"
    /\ weather (background plan) = str "foggy"
    /\ timeOfDay (background plan) = str "night"
    /\ toString_VCArtStyle (style (artStyle plan)) = str "anime"
    /\ toString_VCAspectRatio (aspectRatio plan) = str "9:16"
    /\ last (tokenize (toLowerASCII (corePrompt plan))) = Some (str "9:16")
    /\ name (primarySubject plan) = str "9:16".
Proof. eexists. split; [by vm_compute|]. split_and!; by vm_compute. Qed.

(** ** What the entry point depends on *)

(** The plan and the JSON depend on the raw prompt only through the
    sanitized prompt. *)
Lemma build_from_sanitized (to_string_float : float32 -> cstring)
    (raw1 raw2 : cstring) (m : VCIGMode) (sf : VCSafetyProfile)
    (q : VCQualityPreset) :
  sanitizePromptForVision raw1 = sanitizePromptForVision raw2 ->
  buildScenePlanFromPrompt raw1 m sf q = buildScenePlanFromPrompt raw2 m sf q
  /\ BuildSemanticIGSpec to_string_float raw1 m sf q
     = BuildSemanticIGSpec to_string_float raw2 m sf q.
Proof.
  intros H. unfold BuildSemanticIGSpec, buildScenePlanFromPrompt.
  by rewrite H.
Qed.

(** Every plan that is built has the focal length [35.0f]. *)
Lemma build_focal_length (raw : cstring) (m : VCIGMode)
    (sf : VCSafetyProfile) (q : VCQualityPreset) (plan : VCScenePlan) :
  buildScenePlanFromPrompt raw m sf q = Ok plan ->
  focalLengthMM (camera plan) = f35.
Proof.
  unfold buildScenePlanFromPrompt.
  destruct (sanitizePromptForVision raw) as [core|e]; [|done].
  by intros [= <-].
Qed.

(** The serializer calls [std::to_string] on the focal length only. *)
Lemma serialize_float_ext (to_string1 to_string2 : float32 -> cstring)
    (p : VCScenePlan) :
  to_string1 (focalLengthMM (camera p))
  = to_string2 (focalLengthMM (camera p)) ->
  serializeScenePlanToJSON to_string1 p = serializeScenePlanToJSON to_string2 p.
Proof. intros H. unfold serializeScenePlanToJSON. by rewrite H. Qed.

(** The result of the entry point depends on [std::to_string] through its
    value at [35.0f] only. *)
Lemma build_reads_to_string_at_f35
    (to_string1 to_string2 : float32 -> cstring) (raw : cstring)
    (m : VCIGMode) (sf : VCSafetyProfile) (q : VCQualityPreset) :
  to_string1 f35 = to_string2 f35 ->
  BuildSemanticIGSpec to_string1 raw m sf q
  = BuildSemanticIGSpec to_string2 raw m sf q.
Proof.
  intros Hf. unfold BuildSemanticIGSpec.
  destruct (buildScenePlanFromPrompt raw m sf q) as [plan|e] eqn:Hb; [|done].
  simpl. do 2 f_equal. apply serialize_float_ext.
  by rewrite (build_focal_length _ _ _ _ _ Hb).
Qed.

(** * Further properties *)

(** ** [stripControl] *)

Lemma keeps_range (c : ascii) :
  keeps c = true <-> (32 <= uchar c <= 126)%N \/ c = LF \/ c = TAB.
Proof.
  unfold keeps. rewrite !orb_true_iff, isAsciiPrintable_range.
  rewrite !Ascii.eqb_eq. tauto.
Qed.

Lemma filter_sublist {A} (f : A -> bool) (l : list A) :
  List.filter f l `sublist_of` l.
Proof.
  induction l as [|x l IH]; simpl; [constructor|].
  destruct (f x); by constructor.
Qed.

Lemma filter_id_iff {A} (f : A -> bool) (l : list A) :
  List.filter f l = l <-> Forall (fun x => f x = true) l.
Proof.
  induction l as [|x l IH]; simpl; [by split; [constructor|]|].
  destruct (f x) eqn:E; split.
  - intros [= H]. constructor; [done | by apply IH].
  - intros [_ H]%list.Forall_cons. f_equal. by apply IH.
  - intros H. pose proof (filter_sublist f l) as Hs. rewrite H in Hs.
    apply sublist_length in Hs. simpl in Hs. lia.
  - intros [H _]%list.Forall_cons. congruence.
Qed.

Lemma keeps_safe_byte (c : ascii) : keeps c = safe_byte c.
Proof. by destruct c as [[] [] [] [] [] [] [] []]. Qed.

Lemma filter_ext_bool {A} (f g : A -> bool) (l : list A) :
  (forall x, f x = g x) -> List.filter f l = List.filter g l.
Proof.
  intros H. induction l as [|x l IH]; simpl; [done|]. by rewrite H, IH.
Qed.

(** X1: [stripControl] returns the bytes of its input that are printable
    ASCII, a newline or a tab, each of them as often as it stands there
    and in their order, and nothing else: it is the filter of the input by
    that test on the byte code; it returns its input unchanged exactly when
    every byte of the input is of that kind. *)
Theorem X1_stripControl_keeps_safe_bytes (s : cstring) :
  stripControl s = List.filter safe_byte s
  /\ stripControl s `sublist_of` s
  /\ (forall c, c ∈ stripControl s <->
         c ∈ s /\ ((32 <= uchar c <= 126)%N \/ c = LF \/ c = TAB))
  /\ (stripControl s = s <->
      Forall (fun c => (32 <= uchar c <= 126)%N \/ c = LF \/ c = TAB) s)
  /\ stripControl (str "hello world" ++ ["007"; LF; "127"; TAB; "200"; CR])
     = str "hello world" ++ [LF; TAB].
Proof.
  split; [|split_and!].
  - rewrite stripControl_filter. apply filter_ext_bool, keeps_safe_byte.
  - rewrite stripControl_filter. apply filter_sublist.
  - rewrite stripControl_filter. intros c.
    rewrite !list_elem_of_In, filter_In, keeps_range. done.
  - rewrite stripControl_filter, filter_id_iff.
    apply Forall_iff. intros c. apply keeps_range.
  - by vm_compute.
Qed.

(** ** [collapseWhitespace] *)

Lemma collapse_run_collapsedb (space : bool) (l : cstring) :
  collapsedb space (collapse_run space l) = true.
Proof.
  revert space. induction l as [|c l IH]; intros space; simpl; [done|].
  destruct (isSpaceLike c) eqn:E.
  - destruct space; [apply IH|]. simpl. by rewrite IH.
  - simpl. by rewrite E, IH.
Qed.

Lemma collapsedb_fixed (space : bool) (l : cstring) :
  collapsedb space l = true -> collapse_run space l = l.
Proof.
  revert space. induction l as [|c l IH]; intros space; simpl; [done|].
  destruct (isSpaceLike c).
  - intros [[Hs ->%Ascii.eqb_eq]%andb_true_iff H]%andb_true_iff.
    destruct space; [done|]. by rewrite (IH true H).
  - intros H. by rewrite (IH false H).
Qed.

Lemma collapsedb_removelast (space : bool) (l : cstring) :
  collapsedb space l = true -> collapsedb space (removelast l) = true.
Proof.
  revert space. induction l as [|c l IH]; intros space; [done|].
  destruct l as [|d l]; [done|].
  change (removelast (c :: d :: l)) with (c :: removelast (d :: l)).
  cbn [collapsedb]. destruct (isSpaceLike c).
  - intros [H1 H2]%andb_true_iff. rewrite H1. simpl. by apply IH.
  - apply IH.
Qed.

Lemma collapsedb_take (space : bool) (l : cstring) (n : nat) :
  collapsedb space l = true -> collapsedb space (take n l) = true.
Proof.
  revert space n. induction l as [|c l IH]; intros space [|n]; try done.
  cbn [take firstn collapsedb]. destruct (isSpaceLike c).
  - intros [H1 H2]%andb_true_iff. rewrite H1. simpl. by apply IH.
  - apply IH.
Qed.

(** In such a string a space is not followed by a space. *)
Lemma collapsedb_next (space : bool) (l : cstring) (i : nat) :
  collapsedb space l = true ->
  l !! i = Some SPACE -> l !! S i <> Some SPACE.
Proof.
  revert space i. induction l as [|c l IH]; intros space i; [done|].
  cbn [collapsedb]. destruct i as [|i]; simpl.
  - intros H [= ->]. change (isSpaceLike SPACE) with true in H. cbv iota in H.
    apply andb_true_iff in H as [_ H]. destruct l as [|d l]; [done|].
    simpl. intros [= ->]. by simpl in H.
  - destruct (isSpaceLike c).
    + intros [_ H]%andb_true_iff. by apply (IH true).
    + apply (IH false).
Qed.

Lemma collapsedb_space_only (space : bool) (l : cstring) :
  collapsedb space l = true ->
  Forall (fun c => isSpaceLike c = true -> c = SPACE) l.
Proof.
  revert space. induction l as [|c l IH]; intros space; [constructor|].
  cbn [collapsedb]. destruct (isSpaceLike c) eqn:E.
  - intros [[_ ->%Ascii.eqb_eq]%andb_true_iff H]%andb_true_iff.
    constructor; [done | by eapply IH].
  - intros H. constructor; [by rewrite E | by eapply IH].
Qed.

(** The shape of the output of [collapseWhitespace]. *)
Lemma collapseWhitespace_shape (s : cstring) :
  collapsedb false (collapseWhitespace s) = true
  /\ last (collapseWhitespace s) <> Some SPACE.
Proof.
  rewrite collapseWhitespace_run.
  pose proof (collapse_run_collapsedb false s) as Hc.
  pose proof (collapse_run_idem false s) as Hfix.
  set (x := collapse_run false s) in *. rewrite trim_back_eq.
  destruct (last x) as [c|] eqn:Hlast; [|by rewrite Hlast].
  destruct (Ascii.eqb_spec c SPACE) as [->|Hne].
  - split; [by apply collapsedb_removelast|].
    by apply (collapse_run_fixed_last false).
  - split; [done|]. rewrite Hlast. congruence.
Qed.

Lemma collapsedb_collapseWhitespace (s : cstring) :
  collapsedb false s = true -> collapseWhitespace s = trim_back s.
Proof.
  intros H. by rewrite collapseWhitespace_run, (collapsedb_fixed _ _ H).
Qed.

Lemma collapse_run_graphic (space : bool) (l : cstring) :
  List.filter notSpace (collapse_run space l) = List.filter notSpace l.
Proof.
  revert space. induction l as [|c l IH]; intros space; simpl; [done|].
  unfold notSpace at 2. destruct (isSpaceLike c) eqn:E; simpl.
  - destruct space; simpl; apply IH.
  - unfold notSpace at 1. rewrite E. simpl. by rewrite IH.
Qed.

Lemma filter_removelast_space (l : cstring) :
  last l = Some SPACE ->
  List.filter notSpace (removelast l) = List.filter notSpace l.
Proof.
  intros [l' ->]%last_Some. rewrite removelast_last, List.filter_app. simpl.
  by rewrite app_nil_r.
Qed.

Lemma collapseWhitespace_graphic (s : cstring) :
  List.filter notSpace (collapseWhitespace s) = List.filter notSpace s.
Proof.
  rewrite collapseWhitespace_run, trim_back_eq.
  destruct (last _) as [c|] eqn:Hlast; [|apply collapse_run_graphic].
  destruct (Ascii.eqb_spec c SPACE) as [->|]; [|apply collapse_run_graphic].
  rewrite filter_removelast_space by done. apply collapse_run_graphic.
Qed.

Lemma collapseWhitespace_length (s : cstring) :
  length (collapseWhitespace s) <= length s.
Proof.
  rewrite collapseWhitespace_run, trim_back_eq.
  pose proof (collapse_run_length false s).
  destruct (last _) as [c|]; [|done].
  destruct (Ascii.eqb c SPACE); [|done].
  destruct (collapse_run false s) using rev_ind; [done|].
  rewrite removelast_last. rewrite length_app in *. simpl in *. lia.
Qed.

Lemma filter_nil_iff {A} (f : A -> bool) (l : list A) :
  List.filter f l = [] <-> Forall (fun x => f x = false) l.
Proof.
  induction l as [|x l IH]; simpl; [by split; [constructor|]|].
  destruct (f x) eqn:E; split; try done.
  - intros [? _]%list.Forall_cons. congruence.
  - intros H. constructor; [done | by apply IH].
  - intros [_ H]%list.Forall_cons. by apply IH.
Qed.

Lemma collapsedb_all_space (space : bool) (l : cstring) :
  collapsedb space l = true ->
  Forall (fun c => isSpaceLike c = true) l ->
  l = [] \/ l = [SPACE].
Proof.
  destruct l as [|c l]; [by left|]. cbn [collapsedb].
  intros H [Hc Hl]%list.Forall_cons. rewrite Hc in H.
  apply andb_true_iff in H as [[_ ->%Ascii.eqb_eq]%andb_true_iff H].
  destruct l as [|d l]; [by right|].
  apply list.Forall_cons in Hl as [Hd _]. simpl in H. by rewrite Hd in H.
Qed.

Lemma collapseWhitespace_nil_iff (s : cstring) :
  collapseWhitespace s = [] <-> Forall (fun c => isSpaceLike c = true) s.
Proof.
  split.
  - intros H. pose proof (collapseWhitespace_graphic s) as Hg.
    rewrite H in Hg. symmetry in Hg. apply filter_nil_iff in Hg.
    eapply Forall_impl; [exact Hg|]. intros c. unfold notSpace.
    by destruct (isSpaceLike c).
  - intros H. destruct (collapseWhitespace_shape s) as [Hc Hlast].
    destruct (collapsedb_all_space _ _ Hc) as [?|Heq]; [|done|].
    + pose proof (collapseWhitespace_graphic s) as Hg.
      assert (List.filter notSpace s = []) as Hnil.
      { apply filter_nil_iff. eapply Forall_impl; [exact H|].
        intros c Hc'. unfold notSpace. by rewrite Hc'. }
      rewrite Hnil in Hg. apply filter_nil_iff in Hg.
      eapply Forall_impl; [exact Hg|]. intros c. unfold notSpace.
      by destruct (isSpaceLike c).
    + by rewrite Heq in Hlast.
Qed.

Lemma trim_back_head (c : ascii) (y : cstring) :
  trim_back (c :: y) <> [] -> head (trim_back (c :: y)) = Some c.
Proof.
  rewrite trim_back_eq. destruct (last (c :: y)) as [d|]; [|done].
  destruct (Ascii.eqb d SPACE); [|done].
  destruct y as [|e y]; [done|]. done.
Qed.

Lemma collapseWhitespace_head (c : ascii) (r : cstring) :
  collapseWhitespace (c :: r) <> [] ->
  head (collapseWhitespace (c :: r))
  = Some (if isSpaceLike c then SPACE else c).
Proof.
  rewrite collapseWhitespace_run, collapse_run_cons.
  destruct (isSpaceLike c); apply trim_back_head.
Qed.

(** X2: the output of [collapseWhitespace] holds no tab, newline or
    carriage return; every space in it is followed by a byte that is no
    space, so it has no two spaces in a row and does not end in a space;
    its bytes other than white space are those of the input, in order; it
    is no longer than the input; it is empty exactly when the input is
    white space only; and when it is not empty it starts with the first
    byte of the input, or with one space when that byte is white space: a
    leading run is collapsed, not trimmed. *)
Theorem X2_collapseWhitespace_shape (s : cstring) :
  Forall (fun c => c <> TAB /\ c <> LF /\ c <> CR) (collapseWhitespace s)
  /\ (forall i, collapseWhitespace s !! i = Some SPACE ->
        exists c, collapseWhitespace s !! S i = Some c /\ c <> SPACE)
  /\ List.filter notSpace (collapseWhitespace s) = List.filter notSpace s
  /\ length (collapseWhitespace s) <= length s
  /\ (collapseWhitespace s = [] <->
      Forall (fun c => c = SPACE \/ c = TAB \/ c = LF \/ c = CR) s)
  /\ (forall c r, s = c :: r -> collapseWhitespace s <> [] ->
        head (collapseWhitespace s)
        = Some (if isSpaceLike c then SPACE else c)).
Proof.
  destruct (collapseWhitespace_shape s) as [Hc Hlast]. split_and!.
  - eapply Forall_impl; [by apply (collapsedb_space_only false)|].
    intros c Hsp. split_and!; intros ->; by specialize (Hsp eq_refl).
  - intros i Hi.
    destruct (collapseWhitespace s !! S i) as [c|] eqn:Hn.
    + exists c. split; [done|]. intros ->.
      by apply (collapsedb_next _ _ _ Hc Hi).
    + exfalso. apply Hlast. rewrite last_lookup.
      apply lookup_ge_None_1 in Hn. pose proof (lookup_lt_Some _ _ _ Hi).
      replace (pred (length (collapseWhitespace s))) with i by lia. done.
  - apply collapseWhitespace_graphic.
  - apply collapseWhitespace_length.
  - rewrite collapseWhitespace_nil_iff. apply Forall_iff. intros c.
    unfold isSpaceLike. rewrite !orb_true_iff, !Ascii.eqb_eq. tauto.
  - intros c r ->. apply collapseWhitespace_head.
Qed.

(** ** [toLowerASCII] *)

(** X3: [toLowerASCII] keeps the length, is idempotent, leaves no
    uppercase ASCII letter, and maps every byte to itself, or to the byte
    32 above it when it is one of A to Z. *)
Theorem X3_toLowerASCII_folds_case (s : cstring) :
  length (toLowerASCII s) = length s
  /\ toLowerASCII (toLowerASCII s) = toLowerASCII s
  /\ Forall (fun c => isUpper c = false) (toLowerASCII s)
  /\ (forall i c, s !! i = Some c ->
        toLowerASCII s !! i
        = Some (if isUpper c then ascii_of_N (uchar c + 32) else c)).
Proof.
  rewrite !toLowerASCII_map. split_and!.
  - apply length_fmap.
  - rewrite <- list_fmap_compose. apply list_fmap_ext. intros _ c _.
    apply lowerChar_idem.
  - apply Forall_fmap, Forall_true. intros c. apply lowerChar_not_upper.
  - intros i c Hc. rewrite list_lookup_fmap, Hc. simpl. f_equal.
    destruct (isUpper c) eqn:E; [|by apply lowerChar_id].
    rewrite <- (lowerChar_upper c E). unfold uchar.
    by rewrite ascii_N_embedding.
Qed.

(** ** [stripNSFWMarkers] on clean strings *)

Lemma occurs_substring (t s : cstring) (q : nat) :
  occurs_at t s q -> substring t s.
Proof.
  intros H. exists (take q s), (drop (q + length t) s).
  apply list_eq. intros i.
  destruct (decide (i < q)) as [Hlt|Hge].
  - destruct (decide (q <= length s)) as [Hq|Hq].
    + rewrite lookup_app_l by (rewrite length_take; lia).
      by rewrite lookup_take_lt.
    + destruct t as [|c t]; cycle 1.
      { specialize (H 0 c eq_refl). apply lookup_lt_Some in H. lia. }
      simpl. rewrite Nat.add_0_r, take_ge, drop_ge, app_nil_r by lia. done.
  - assert (q <= length s \/ t = []) as Hq.
    { destruct t as [|c t]; [by right|]. left.
      specialize (H 0 c eq_refl). apply lookup_lt_Some in H. lia. }
    destruct (decide (q <= length s)) as [Hq'|Hq'].
    + rewrite lookup_app_r by (rewrite length_take; lia).
      rewrite length_take, Nat.min_l by lia.
      destruct (decide (i - q < length t)) as [Hin|Hout].
      * rewrite lookup_app_l by done.
        destruct (lookup_lt_is_Some_2 t (i - q) Hin) as [c Hc].
        rewrite Hc. apply H in Hc. by replace (q + (i - q)) with i in Hc by lia.
      * rewrite lookup_app_r by lia. rewrite lookup_drop. f_equal. lia.
    + destruct Hq as [?| ->]; [lia|]. simpl.
      rewrite Nat.add_0_r, take_ge, drop_ge, app_nil_r by lia. done.
Qed.

Lemma find_no_occurrence (s t : cstring) (pos : nat) :
  (forall q, ~ occurs_at t s q) -> find s t pos = None.
Proof.
  intros H. destruct (find s t pos) as [p|] eqn:E; [|done].
  apply find_Some in E as (_ & Hocc & _). by apply H in Hocc.
Qed.

Lemma scan_terms_clean (fuel : nat) (ts : list cstring) (st : buffers) :
  Forall (fun t => forall q, ~ occurs_at t st.2 q) ts ->
  scan_terms (S fuel) ts st = Some st.
Proof.
  induction 1 as [|t ts Ht Hts IH]; [done|].
  cbn [scan_terms scan_term]. by rewrite (find_no_occurrence _ _ _ Ht).
Qed.

Lemma stripNSFWMarkers_clean (s : cstring) :
  Forall (fun t => forall q, ~ occurs_at t (lowerChar <$> s) q) kBlockList ->
  stripNSFWMarkers s = s.
Proof.
  intros H. unfold stripNSFWMarkers, stripNSFWMarkers_fuel.
  rewrite toLowerASCII_map. by rewrite scan_terms_clean.
Qed.

Lemma stripNSFWMarkers_no_occurrence (s : cstring) :
  Forall (fun t => forall q,
            ~ occurs_at t (lowerChar <$> stripNSFWMarkers s) q) kBlockList.
Proof. by destruct (stripNSFW_run s) as (pss & _ & _ & _ & _ & _ & _ & H). Qed.

(** X4: [stripNSFWMarkers] returns its input unchanged exactly when no
    blocklist term is a substring of the lowercased input, and running it
    on its own output changes nothing. *)
Theorem X4_stripNSFWMarkers_fixed_points (s : cstring) :
  (stripNSFWMarkers s = s <->
   forall t, t ∈ kBlockList -> ~ substring t (toLowerASCII s))
  /\ stripNSFWMarkers (stripNSFWMarkers s) = stripNSFWMarkers s.
Proof.
  split.
  - split.
    + intros Heq t Ht [q Hq]%substring_occurs.
      rewrite toLowerASCII_map, <- Heq in Hq.
      by apply (proj1 (list.Forall_forall _ _)
                  (stripNSFWMarkers_no_occurrence s) t Ht q).
    + intros H. apply stripNSFWMarkers_clean, list.Forall_forall.
      intros t Ht q Hq%occurs_substring. apply (H t Ht).
      by rewrite toLowerASCII_map.
  - apply stripNSFWMarkers_clean, stripNSFWMarkers_no_occurrence.
Qed.

(** ** What the masks touch *)

Lemma lower_letter (c : ascii) :
  isLower (lowerChar c) = true -> isLetter c = true.
Proof. by destruct c as [[] [] [] [] [] [] [] []]. Qed.

Lemma letter_not_space (c : ascii) :
  isLetter c = true -> isSpaceLike c = false.
Proof. by destruct c as [[] [] [] [] [] [] [] []]. Qed.

(** A byte under a logged match is a letter. *)
Lemma covered_letter (s : cstring) (i : nat) (c : ascii) :
  covered (stripNSFW_matches s) i -> s !! i = Some c -> isLetter c = true.
Proof.
  intros Hcov Hc.
  destruct (stripNSFW_run s) as (pss & _ & Hm & _ & _ & _ & Hok & _).
  apply list.Exists_exists in Hcov as (e & He & [Hi1 Hi2]).
  pose proof He as [k Hk]%list_elem_of_lookup_1.
  destruct (Hok k e Hk) as [Hocc _].
  rewrite Hm in He. apply event_in_all_events in He.
  destruct (lookup_lt_is_Some_2 e.1 (i - e.2)) as [d Hd]; [lia|].
  pose proof (Hocc _ _ Hd) as Hl.
  replace (e.2 + (i - e.2)) with i in Hl by lia.
  rewrite list_lookup_fmap, Hc in Hl. injection Hl as Hl.
  apply lower_letter. rewrite Hl.
  pose proof (proj1 (list.Forall_forall _ _) kBlockList_lower _ He) as Hlow.
  apply (proj1 (list.Forall_forall _ _) Hlow).
  by eapply list_elem_of_lookup_2.
Qed.

Lemma stripNSFWMarkers_nonletter (s : cstring) (i : nat) (c : ascii) :
  s !! i = Some c -> isLetter c = false ->
  stripNSFWMarkers s !! i = Some c.
Proof.
  intros Hc Hl.
  destruct (stripNSFW_run s) as (pss & _ & _ & _ & _ & -> & _).
  rewrite apply_masks_lookup_out; [done|].
  intros Hcov. by rewrite (covered_letter s i c Hcov Hc) in Hl.
Qed.

(** X5: [stripNSFWMarkers] masks ASCII letters only: every byte of the
    output is the byte of the input at that position or [*], and a byte
    that is no ASCII letter (a digit, a space, punctuation, a byte above
    127) is never changed. *)
Theorem X5_only_letters_are_masked (s : cstring) (i : nat) (c : ascii) :
  s !! i = Some c ->
  (stripNSFWMarkers s !! i = Some c \/ stripNSFWMarkers s !! i = Some STAR)
  /\ (isLetter c = false -> stripNSFWMarkers s !! i = Some c).
Proof.
  intros Hc. split; [|by apply stripNSFWMarkers_nonletter].
  destruct (lookup_lt_is_Some_2 (stripNSFWMarkers s) i) as [d Hd].
  { rewrite stripNSFWMarkers_length. by eapply lookup_lt_Some. }
  destruct (stripNSFWMarkers_lookup s i d Hd) as [->|Hs]; [by right|].
  left. congruence.
Qed.

Lemma X5_only_letters_are_masked_witness :
  str "a nude 1:1 cat" !! 7 = Some "1"
  /\ (stripNSFWMarkers (str "a nude 1:1 cat") !! 7 = Some "1"
      \/ stripNSFWMarkers (str "a nude 1:1 cat") !! 7 = Some STAR)
  /\ (isLetter "1" = false ->
      stripNSFWMarkers (str "a nude 1:1 cat") !! 7 = Some "1").
Proof.
  split; [reflexivity|].
  exact (X5_only_letters_are_masked (str "a nude 1:1 cat") 7 "1" eq_refl).
Defined.

(** ** Length *)

Lemma stripControl_length (s : cstring) :
  length (stripControl s) <= length s.
Proof. rewrite stripControl_filter. apply sublist_length, filter_sublist. Qed.

Lemma truncated_le (s : cstring) : length (truncated s) <= length s.
Proof.
  unfold truncated, resize_down. destruct (_ <? _); [|done].
  rewrite length_take. lia.
Qed.

(** X6: a sanitized prompt is never longer than the raw prompt. *)
Theorem X6_sanitize_never_lengthens (raw out : cstring) :
  sanitizePromptForVision raw = Ok out -> length out <= length raw.
Proof.
  intros (_ & _ & ->)%sanitize_Ok.
  pose proof (truncated_le (processed raw)). unfold processed in *.
  rewrite stripNSFWMarkers_length in *.
  pose proof (collapseWhitespace_length (stripControl raw)).
  pose proof (stripControl_length raw). lia.
Qed.

Lemma X6_sanitize_never_lengthens_witness :
  sanitizePromptForVision (str "a  NUDE" ++ [TAB] ++ str "cat ")
  = Ok (str "a **** cat")
  /\ length (str "a **** cat")
     <= length (str "a  NUDE" ++ [TAB] ++ str "cat ").
Proof.
  assert (sanitizePromptForVision (str "a  NUDE" ++ [TAB] ++ str "cat ")
          = Ok (str "a **** cat")) as H by (by vm_compute).
  split; [exact H|]. exact (X6_sanitize_never_lengthens _ _ H).
Defined.

(** ** Which prompts are accepted *)

Lemma graphic_keeps (c : ascii) :
  isGraphic c = keeps c && negb (isSpaceLike c).
Proof. by destruct c as [[] [] [] [] [] [] [] []]. Qed.

Lemma isGraphic_range (c : ascii) :
  isGraphic c = true <-> (33 <= uchar c <= 126)%N.
Proof. unfold isGraphic. by rewrite andb_true_iff, !N.leb_le. Qed.

Lemma processed_nil_iff (raw : cstring) :
  processed raw = [] <-> Forall (fun c => isGraphic c = false) raw.
Proof.
  unfold processed. split.
  - intros H%(f_equal length). rewrite stripNSFWMarkers_length in H.
    apply nil_length_inv, collapseWhitespace_nil_iff in H.
    rewrite stripControl_filter in H. apply list.Forall_forall.
    intros c Hc. rewrite graphic_keeps.
    destruct (keeps c) eqn:Hk; [|done]. simpl.
    rewrite (proj1 (list.Forall_forall _ _) H c); [done|].
    apply list_elem_of_In, filter_In. by rewrite <- list_elem_of_In.
  - intros H. apply nil_length_inv. rewrite stripNSFWMarkers_length.
    apply length_zero_iff_nil, collapseWhitespace_nil_iff.
    rewrite stripControl_filter. apply list.Forall_forall. intros c Hc.
    apply list_elem_of_In, filter_In in Hc as [Hc Hk].
    apply list_elem_of_In in Hc.
    pose proof (proj1 (list.Forall_forall _ _) H c Hc) as Hg.
    cbv beta in Hg. rewrite graphic_keeps, Hk in Hg.
    by destruct (isSpaceLike c).
Qed.

Lemma processed_nonempty_iff (raw : cstring) :
  processed raw <> [] <-> Exists (fun c => (33 <= uchar c <= 126)%N) raw.
Proof.
  rewrite processed_nil_iff. split.
  - intros H%not_Forall_Exists; [|intros c; apply _].
    eapply Exists_impl; [exact H|]. intros c Hc. apply isGraphic_range.
    simpl in Hc. by destruct (isGraphic c).
  - intros (c & Hc & Hr)%list.Exists_exists HF.
    apply isGraphic_range in Hr.
    by rewrite (proj1 (list.Forall_forall _ _) HF c Hc) in Hr.
Qed.

(** X7: [sanitizePromptForVision], and with it the entry point
    [BuildSemanticIGSpec], succeeds exactly when the raw prompt has a byte
    between 33 and 126, a printable byte other than the space; it throws
    [SanitizationExhausted] exactly when the raw prompt is not empty and
    has no such byte. *)
Theorem X7_sanitize_accepts_graphic_prompts (raw : cstring) :
  ((exists out, sanitizePromptForVision raw = Ok out) <->
   Exists (fun c => (33 <= uchar c <= 126)%N) raw)
  /\ (sanitizePromptForVision raw = Throw SanitizationExhausted <->
      raw <> [] /\ Forall (fun c => ~ (33 <= uchar c <= 126)%N) raw)
  /\ (forall to_string_float m sf q,
        (exists r, BuildSemanticIGSpec to_string_float raw m sf q = Ok r) <->
        Exists (fun c => (33 <= uchar c <= 126)%N) raw).
Proof.
  assert ((exists out, sanitizePromptForVision raw = Ok out) <->
          Exists (fun c => (33 <= uchar c <= 126)%N) raw) as Hacc.
  { rewrite sanitize_eq, <- processed_nonempty_iff.
    case_bool_decide as Hraw; [|case_bool_decide as Hp].
    - subst raw. split; [by intros [? ?] | done].
    - split; [by intros [? ?] | done].
    - split; [done | by eexists]. }
  split; [exact Hacc|]. split; cycle 1.
  { intros to_string_float m sf q. rewrite <- Hacc.
    unfold BuildSemanticIGSpec, buildScenePlanFromPrompt.
    destruct (sanitizePromptForVision raw) as [core|e]; simpl.
    - split; intros _; by eexists.
    - split; by intros [? ?]. }
  clear Hacc.
  assert (Forall (fun c => isGraphic c = false) raw
          <-> Forall (fun c => ~ (33 <= uchar c <= 126)%N) raw) as Hiff.
  { apply Forall_iff. intros c. rewrite <- isGraphic_range.
    by destruct (isGraphic c). }
  rewrite sanitize_eq, <- Hiff, <- processed_nil_iff.
  repeat case_bool_decide; split; try done; tauto.
Qed.

(** ** Sanitizing a sanitized prompt *)

(** Masking keeps the white space where it is. *)
Lemma collapsedb_stripNSFWMarkers (space : bool) (s : cstring) :
  collapsedb space (stripNSFWMarkers s) = collapsedb space s.
Proof.
  assert (forall l l' : cstring,
            Forall2 (fun c d => d = c \/ (isSpaceLike c = false
                                          /\ isSpaceLike d = false)) l l' ->
            forall sp, collapsedb sp l' = collapsedb sp l) as Hrel.
  { induction 1 as [|c d l l' Hcd Hl IH]; intros sp; [done|].
    cbn [collapsedb]. destruct Hcd as [->|[Hc Hd]].
    - by rewrite !IH.
    - by rewrite Hc, Hd, IH. }
  apply Hrel. apply Forall2_same_length_lookup_2.
  { by rewrite stripNSFWMarkers_length. }
  intros i c d Hc Hd. destruct (isLetter c) eqn:Hl.
  - apply stripNSFWMarkers_lookup in Hd as [->|Hd]; [|left; congruence].
    right. split; [by apply letter_not_space | done].
  - left. rewrite (stripNSFWMarkers_nonletter s i c Hc Hl) in Hd. congruence.
Qed.

Lemma stripNSFWMarkers_last (s : cstring) :
  last s <> Some SPACE -> last (stripNSFWMarkers s) <> Some SPACE.
Proof.
  rewrite !last_lookup, stripNSFWMarkers_length. intros H Hd.
  by apply stripNSFWMarkers_lookup in Hd as [?|?].
Qed.

Lemma processed_shape (raw : cstring) :
  collapsedb false (processed raw) = true
  /\ last (processed raw) <> Some SPACE.
Proof.
  unfold processed.
  destruct (collapseWhitespace_shape (stripControl raw)) as [Hc Hlast].
  split; [by rewrite collapsedb_stripNSFWMarkers|].
  by apply stripNSFWMarkers_last.
Qed.

Lemma occurs_at_take (t s : cstring) (n q : nat) :
  occurs_at t (lowerChar <$> take n s) q -> occurs_at t (lowerChar <$> s) q.
Proof.
  intros H k c Hk. specialize (H k c Hk). rewrite fmap_take in H.
  by apply lookup_take_Some in H as [H _].
Qed.

Lemma trim_back_take (s : cstring) : exists n, trim_back s = take n s.
Proof.
  rewrite trim_back_eq. destruct (last s) as [c|] eqn:Hlast.
  - destruct (Ascii.eqb c SPACE).
    + apply last_Some in Hlast as [l' ->]. exists (length l').
      by rewrite removelast_last, take_app_length.
    + exists (length s). by rewrite take_ge.
  - exists (length s). by rewrite take_ge.
Qed.

Lemma trim_back_id (s : cstring) : last s <> Some SPACE -> trim_back s = s.
Proof.
  intros H. rewrite trim_back_eq. destruct (last s) as [c|]; [|done].
  destruct (Ascii.eqb_spec c SPACE) as [->|]; done.
Qed.

Lemma trim_back_length (s : cstring) :
  length s - 1 <= length (trim_back s) <= length s.
Proof.
  rewrite trim_back_eq. destruct (last s) as [c|] eqn:Hlast; [|lia].
  destruct (Ascii.eqb c SPACE); [|lia].
  apply last_Some in Hlast as [l' ->].
  rewrite removelast_last, length_app. simpl. lia.
Qed.

Lemma kMaxPromptBytes_two : 2 <= kMaxPromptBytes.
Proof. apply Nat.leb_le. by vm_compute. Qed.

Lemma truncated_id (s : cstring) :
  length s <= kMaxPromptBytes -> truncated s = s.
Proof.
  intros H. unfold truncated.
  by destruct (Nat.ltb_spec kMaxPromptBytes (length s)); [lia|].
Qed.

Lemma printable_keeps (c : ascii) : isAsciiPrintable c = true -> keeps c = true.
Proof. unfold keeps. by intros ->. Qed.

(** The result of a sanitization, sanitized again, loses a final space and
    nothing else. *)
Lemma sanitize_again (raw out : cstring) :
  sanitizePromptForVision raw = Ok out ->
  sanitizePromptForVision out = Ok (trim_back out).
Proof.
  intros (Hraw & Hne & ->)%sanitize_Ok.
  set (out := truncated (processed raw)).
  destruct (processed_shape raw) as [Hshape Hlast].
  assert (stripControl out = out) as H1.
  { rewrite stripControl_filter. apply filter_id_iff.
    eapply Forall_impl; [apply processed_printable|].
    intros c. apply printable_keeps. }
  assert (exists n, out = take n (processed raw)) as [n Hn].
  { subst out. unfold truncated, resize_down.
    destruct (_ <? _); [by eexists|].
    exists (length (processed raw)). by rewrite take_ge. }
  assert (collapseWhitespace out = trim_back out) as H2.
  { apply collapsedb_collapseWhitespace. rewrite Hn.
    by apply collapsedb_take. }
  assert (stripNSFWMarkers (trim_back out) = trim_back out) as H3.
  { apply stripNSFWMarkers_clean.
    destruct (trim_back_take out) as [m ->]. rewrite Hn.
    eapply Forall_impl; [apply (stripNSFWMarkers_no_occurrence
      (collapseWhitespace (stripControl raw)))|].
    intros t Ht q Hq. apply (Ht q).
    by apply occurs_at_take, occurs_at_take in Hq. }
  assert (trim_back out <> []) as H4.
  { subst out. unfold truncated, resize_down.
    destruct (Nat.ltb_spec kMaxPromptBytes (length (processed raw)))
      as [Hlt|Hge].
    - intros H%(f_equal length).
      pose proof (trim_back_length (take kMaxPromptBytes (processed raw)))
        as Hl.
      rewrite length_take in Hl. pose proof kMaxPromptBytes_two.
      rewrite H in Hl. simpl in Hl. lia.
    - by rewrite trim_back_id. }
  assert (truncated (trim_back out) = trim_back out) as H5.
  { apply truncated_id. pose proof (trim_back_length out).
    pose proof (truncated_length (processed raw)). fold out in H0. lia. }
  rewrite sanitize_eq. unfold processed. rewrite H1, H2, H3, H5.
  case_bool_decide as Ho.
  { subst out. by apply truncated_nonempty in Hne. }
  by case_bool_decide.
Qed.

(** X8: sanitizing a sanitized prompt again gives the same string
    without its final space, if it has one; it gives the same string when
    the prompt does not end in a space, which is so whenever the cut to
    8000 bytes removed nothing. *)
Theorem X8_sanitize_is_idempotent_up_to_a_final_space (raw out : cstring) :
  sanitizePromptForVision raw = Ok out ->
  sanitizePromptForVision out = Ok (trim_back out)
  /\ (last out <> Some SPACE -> sanitizePromptForVision out = Ok out)
  /\ (length (stripNSFWMarkers (collapseWhitespace (stripControl raw)))
      <= kMaxPromptBytes ->
      sanitizePromptForVision out = Ok out).
Proof.
  intros H. pose proof (sanitize_again _ _ H) as Hagain. split_and!.
  - done.
  - intros Hlast. by rewrite trim_back_id in Hagain.
  - intros Hlen. apply sanitize_Ok in H as (_ & _ & Hout).
    rewrite truncated_id in Hout by done. subst out.
    destruct (processed_shape raw) as [_ Hlast].
    by rewrite trim_back_id in Hagain.
Qed.

Lemma X8_sanitize_is_idempotent_up_to_a_final_space_witness :
  sanitizePromptForVision (str "a  NUDE" ++ [TAB] ++ str "cat ")
  = Ok (str "a **** cat")
  /\ sanitizePromptForVision (str "a **** cat")
     = Ok (trim_back (str "a **** cat"))
  /\ (last (str "a **** cat") <> Some SPACE ->
      sanitizePromptForVision (str "a **** cat") = Ok (str "a **** cat"))
  /\ (length (stripNSFWMarkers (collapseWhitespace (stripControl
                (str "a  NUDE" ++ [TAB] ++ str "cat "))))
      <= kMaxPromptBytes ->
      sanitizePromptForVision (str "a **** cat") = Ok (str "a **** cat")).
Proof.
  assert (sanitizePromptForVision (str "a  NUDE" ++ [TAB] ++ str "cat ")
          = Ok (str "a **** cat")) as H by (by vm_compute).
  split; [exact H|].
  exact (X8_sanitize_is_idempotent_up_to_a_final_space _ _ H).
Defined.

(** ** [guessSubjectName] *)

Lemma substring_snoc (t s : cstring) (c : ascii) :
  substring t s -> substring t (s ++ [c]).
Proof.
  intros (a & b & ->). exists a, (b ++ [c]). by rewrite <- !app_assoc.
Qed.

Lemma token_step_ok (pre : cstring) (st : list cstring * cstring)
    (c : ascii) :
  tokens_ok pre st -> tokens_ok (pre ++ [c]) (token_step st c).
Proof.
  destruct st as [tokens cur]. intros (Htok & Hcur & a & Hpre).
  simpl in *. unfold token_step.
  assert (Forall (fun tok => tok <> []
                     /\ Forall (fun c => isSeparator c = false) tok
                     /\ substring tok (pre ++ [c])) tokens) as Htok'.
  { eapply Forall_impl; [exact Htok|]. intros tok (? & ? & ?).
    split_and!; [done | done | by apply substring_snoc]. }
  destruct (isSeparator c) eqn:Hsep.
  - case_bool_decide as Hnil; simpl.
    + split_and!; [done | done |]. exists (a ++ [c]).
      by rewrite Hpre, Hnil, !app_nil_r.
    + split_and!; [|constructor | exists (pre ++ [c]); by rewrite app_nil_r].
      apply Forall_app. split; [done|]. constructor; [|constructor].
      split_and!; [done | done |].
      exists a, [c]. by rewrite Hpre, <- app_assoc.
  - split_and!; [done | |].
    + apply Forall_app. split; [done|]. by constructor.
    + exists a. unfold push_back. by rewrite Hpre, <- app_assoc.
Qed.

Lemma tokenize_fold_ok (l pre : cstring) (st : list cstring * cstring) :
  tokens_ok pre st -> tokens_ok (pre ++ l) (fold_left token_step l st).
Proof.
  revert pre st. induction l as [|c l IH]; intros pre st H; simpl.
  - by rewrite app_nil_r.
  - replace (pre ++ c :: l) with ((pre ++ [c]) ++ l)
      by (by rewrite <- app_assoc).
    by apply IH, token_step_ok.
Qed.

Lemma tokenize_ok (l : cstring) :
  Forall (fun tok => tok <> []
                     /\ Forall (fun c => isSeparator c = false) tok
                     /\ substring tok l) (tokenize l).
Proof.
  unfold tokenize.
  pose proof (tokenize_fold_ok l [] ([], [])) as H.
  destruct (fold_left token_step l ([], [])) as [tokens cur].
  destruct H as (Htok & Hcur & a & Hpre).
  { split_and!; [constructor | constructor | by exists []]. }
  simpl in *. case_bool_decide as Hnil; simpl; [done|].
  apply Forall_app. split; [done|]. constructor; [|constructor].
  split_and!; [done | done |]. exists a, []. by rewrite app_nil_r.
Qed.

Lemma last_non_stop_Some (tokens : list cstring) (n : nat) (tok : cstring) :
  last_non_stop tokens n = Some tok ->
  exists i, i < n /\ tokens !! i = Some tok /\ isStop tok = false
            /\ forall j t, i < j < n -> tokens !! j = Some t ->
                           isStop t = true.
Proof.
  induction n as [|n IH]; simpl; [done|].
  destruct (tokens !! n) as [t|] eqn:Hn; [|done].
  destruct (isStop t) eqn:Hs; simpl.
  - intros (i & Hi & Htok & Hns & Hafter)%IH. exists i.
    split_and!; [lia | done | done |].
    intros j t' Hj Ht'. destruct (decide (j = n)) as [->|];
      [congruence | apply (Hafter j); [lia | done]].
  - intros [= <-]. exists n. split_and!; [lia | done | done |].
    intros j t' Hj. lia.
Qed.

Lemma last_non_stop_None (tokens : list cstring) (n : nat) :
  n <= length tokens -> last_non_stop tokens n = None ->
  forall j t, j < n -> tokens !! j = Some t -> isStop t = true.
Proof.
  induction n as [|n IH]; simpl; [intros; lia|]. intros Hn.
  destruct (tokens !! n) as [t|] eqn:Ht.
  - destruct (isStop t) eqn:Hs; simpl; [|done].
    intros H j t' Hj Ht'. destruct (decide (j = n)) as [->|];
      [congruence | apply (IH ltac:(lia) H j); [lia | done]].
  - apply lookup_ge_None_1 in Ht. lia.
Qed.

Lemma substring_Forall (P : ascii -> Prop) (t s : cstring) :
  substring t s -> Forall P s -> Forall P t.
Proof.
  intros (a & b & ->) H. apply Forall_app in H as [_ H].
  by apply Forall_app in H as [H _].
Qed.

(** The name is the word ["subject"] or a token. *)
Lemma guessSubjectName_cases (p : cstring) :
  let tokens := tokenize (toLowerASCII p) in
  (tokens = [] /\ guessSubjectName p = str "subject")
  \/ (exists i, tokens !! i = Some (guessSubjectName p)
        /\ isStop (guessSubjectName p) = false
        /\ forall j t, i < j -> tokens !! j = Some t -> isStop t = true)
  \/ (tokens <> [] /\ last tokens = Some (guessSubjectName p)
      /\ Forall (fun t => isStop t = true) tokens).
Proof.
  cbv zeta. unfold guessSubjectName. cbv zeta.
  set (tokens := tokenize (toLowerASCII p)).
  case_bool_decide as Hnil; [by left | right].
  destruct (last_non_stop tokens (length tokens)) as [tok|] eqn:Hl.
  - left. apply last_non_stop_Some in Hl as (i & Hi & Htok & Hns & Hafter).
    exists i. split_and!; [done | done |].
    intros j t Hj Ht. apply (Hafter j t); [|done].
    apply lookup_lt_Some in Ht. lia.
  - right. split; [done|].
    destruct (last tokens) as [t|] eqn:Hlast;
      [|by apply last_None in Hlast].
    split; [done|]. apply Forall_lookup. intros j t' Ht'.
    apply (last_non_stop_None tokens (length tokens) ltac:(lia) Hl j);
      [by eapply lookup_lt_Some | done].
Qed.

(** X9: the name that [guessSubjectName] returns is not empty and holds
    no separator and no uppercase ASCII letter; it is the word "subject",
    which it is whenever the prompt has no token, or a run of bytes of the
    lowercased prompt; it is a stop word only when every token is one; and
    when some token is no stop word, it is the last such token. *)
Theorem X9_guessSubjectName_is_a_clean_token (p : cstring) :
  guessSubjectName p <> []
  /\ Forall (fun c => isSeparator c = false /\ isUpper c = false)
       (guessSubjectName p)
  /\ (guessSubjectName p = str "subject"
      \/ substring (guessSubjectName p) (toLowerASCII p))
  /\ (tokenize (toLowerASCII p) = [] -> guessSubjectName p = str "subject")
  /\ (isStop (guessSubjectName p) = true ->
      Forall (fun t => isStop t = true) (tokenize (toLowerASCII p)))
  /\ (forall i t, tokenize (toLowerASCII p) !! i = Some t ->
        isStop t = false ->
        exists j, i <= j
          /\ tokenize (toLowerASCII p) !! j = Some (guessSubjectName p)
          /\ isStop (guessSubjectName p) = false
          /\ forall k t', j < k ->
               tokenize (toLowerASCII p) !! k = Some t' ->
               isStop t' = true).
Proof.
  pose proof (tokenize_ok (toLowerASCII p)) as Hok.
  assert (Forall (fun c => isUpper c = false) (toLowerASCII p)) as Hup.
  { rewrite toLowerASCII_map. apply Forall_fmap, Forall_true.
    intros c. apply lowerChar_not_upper. }
  assert (forall tok, tok ∈ tokenize (toLowerASCII p) ->
            tok <> []
            /\ Forall (fun c => isSeparator c = false /\ isUpper c = false) tok
            /\ substring tok (toLowerASCII p)) as Htok.
  { intros tok Hin.
    destruct (proj1 (list.Forall_forall _ _) Hok tok Hin) as (H1 & H2 & H3).
    split_and!; [done | | done]. apply Forall_and. split; [done|].
    by apply (substring_Forall _ _ _ H3). }
  destruct (guessSubjectName_cases p) as [[Hnil ->]|[(i & Hi & Hns & Hafter)|
    (Hne & Hlast & Hall)]].
  - split_and!; [done | by repeat constructor | by left | done | done |].
    intros i t Ht. by rewrite Hnil in Ht.
  - destruct (Htok _ (list_elem_of_lookup_2 _ _ _ Hi)) as (H1 & H2 & H3).
    split_and!; [done | done | by right | | congruence |].
    + intros Hnil. by rewrite Hnil in Hi.
    + intros k t Hk Hs. exists i. split_and!; [|done..].
      destruct (decide (k <= i)); [done|].
      rewrite (Hafter k t) in Hs; [done | lia | done].
  - assert (guessSubjectName p ∈ tokenize (toLowerASCII p)) as Hin.
    { apply last_Some in Hlast as [l' ->]. apply elem_of_app. right.
      by apply list_elem_of_singleton. }
    destruct (Htok _ Hin) as (H1 & H2 & H3).
    split_and!; [done | done | by right | done | done |].
    intros i t Ht Hs.
    by rewrite (proj1 (Forall_lookup _ _) Hall i t Ht) in Hs.
Qed.

(** ** [jsonEscape] *)

Lemma unescape_escape_char (c : ascii) (rest : cstring) :
  jsonUnescape (escape_char c ++ rest)
  = (if json_dropped c then [] else [c]) ++ jsonUnescape rest.
Proof. by destruct c as [[] [] [] [] [] [] [] []]. Qed.

Lemma jsonUnescape_jsonEscape (s : cstring) :
  jsonUnescape (jsonEscape s)
  = List.filter (fun c => negb (json_dropped c)) s.
Proof.
  rewrite jsonEscape_flat_map.
  induction s as [|c s IH]; simpl; [done|].
  rewrite unescape_escape_char, IH. by destruct (json_dropped c).
Qed.

Lemma escape_char_no_control (c : ascii) :
  Forall (fun d => (32 <= uchar d)%N) (escape_char c).
Proof.
  destruct c as [[] [] [] [] [] [] [] []];
    repeat constructor; by vm_compute.
Qed.

Lemma escape_char_length (c : ascii) : length (escape_char c) <= 2.
Proof. destruct c as [[] [] [] [] [] [] [] []]; simpl; lia. Qed.

(** X10: reading the output of [jsonEscape] back gives the input without
    the bytes below 0x20 other than newline, carriage return and tab, and
    so the input itself when it has none of these; the output holds no
    byte below 0x20 and is at most twice as long as the input. *)
Theorem X10_jsonEscape_round_trip (s : cstring) :
  jsonUnescape (jsonEscape s)
  = List.filter (fun c => negb (json_dropped c)) s
  /\ (Forall (fun c => (32 <= uchar c)%N \/ c = LF \/ c = CR \/ c = TAB) s ->
      jsonUnescape (jsonEscape s) = s)
  /\ Forall (fun d => (32 <= uchar d)%N) (jsonEscape s)
  /\ length (jsonEscape s) <= 2 * length s.
Proof.
  split_and!.
  - apply jsonUnescape_jsonEscape.
  - intros H. rewrite jsonUnescape_jsonEscape. apply filter_id_iff.
    eapply Forall_impl; [exact H|]. intros c Hc. unfold json_dropped.
    destruct Hc as [Hc | [-> | [-> | ->]]]; [|done..].
    apply N.ltb_ge in Hc. by rewrite Hc.
  - rewrite jsonEscape_flat_map. induction s as [|c s IH]; simpl;
      [constructor|]. apply Forall_app. split; [|done].
    apply escape_char_no_control.
  - rewrite jsonEscape_flat_map. induction s as [|c s IH]; simpl; [lia|].
    rewrite length_app. pose proof (escape_char_length c). lia.
Qed.

(** X11: on strings without a byte below 0x20 other than newline,
    carriage return and tab, [jsonEscape] is injective: two such strings
    with the same escaped form are equal. *)
Theorem X11_jsonEscape_injective (s1 s2 : cstring) :
  Forall (fun c => (32 <= uchar c)%N \/ c = LF \/ c = CR \/ c = TAB) s1 ->
  Forall (fun c => (32 <= uchar c)%N \/ c = LF \/ c = CR \/ c = TAB) s2 ->
  jsonEscape s1 = jsonEscape s2 -> s1 = s2.
Proof.
  assert (forall s,
    Forall (fun c => (32 <= uchar c)%N \/ c = LF \/ c = CR \/ c = TAB) s ->
    jsonUnescape (jsonEscape s) = s) as Hrt.
  { intros s H. rewrite jsonUnescape_jsonEscape. apply filter_id_iff.
    eapply Forall_impl; [exact H|]. intros c Hc. unfold json_dropped.
    destruct Hc as [Hc | [-> | [-> | ->]]]; [|done..].
    apply N.ltb_ge in Hc. by rewrite Hc. }
  intros H1 H2 Heq. rewrite <- (Hrt s1 H1), <- (Hrt s2 H2). by rewrite Heq.
Qed.

Lemma X11_jsonEscape_injective_witness :
  Forall (fun c => (32 <= uchar c)%N \/ c = LF \/ c = CR \/ c = TAB)
    [DQUOTE; "n"]
  /\ Forall (fun c => (32 <= uchar c)%N \/ c = LF \/ c = CR \/ c = TAB)
       [DQUOTE; "n"]
  /\ (jsonEscape [DQUOTE; "n"] = jsonEscape [DQUOTE; "n"] ->
      [DQUOTE; "n"] = [DQUOTE; "n"]).
Proof.
  assert (Forall (fun c => (32 <= uchar c)%N \/ c = LF \/ c = CR \/ c = TAB)
            [DQUOTE; "n"]) as H.
  { constructor; [left; by vm_compute|].
    constructor; [left; by vm_compute|]. constructor. }
  split; [exact H|]. split; [exact H|].
  exact (X11_jsonEscape_injective _ _ H H).
Defined.

Lemma lowerChar_printable (c : ascii) :
  isAsciiPrintable c = true -> isAsciiPrintable (lowerChar c) = true.
Proof. by destruct c as [[] [] [] [] [] [] [] []]. Qed.

Lemma guessSubjectName_substring (p : cstring) :
  guessSubjectName p = str "subject"
  \/ substring (guessSubjectName p) (toLowerASCII p).
Proof.
  pose proof (tokenize_ok (toLowerASCII p)) as Hok.
  destruct (guessSubjectName_cases p) as [[_ ->]|[(i & Hi & _)|
    (_ & Hlast & _)]]; [by left | right..].
  - apply list_elem_of_lookup_2 in Hi.
    by destruct (proj1 (list.Forall_forall _ _) Hok _ Hi) as (_ & _ & ?).
  - apply last_Some_elem_of in Hlast.
    by destruct (proj1 (list.Forall_forall _ _) Hok _ Hlast) as (_ & _ & ?).
Qed.

(** X12: for every result of [BuildSemanticIGSpec], [jsonEscape] drops
    no byte of the core prompt or of the subject name: reading their
    escaped forms back gives the two strings. *)
Theorem X12_core_prompt_is_serialized_without_loss
    (to_string_float : float32 -> cstring) (raw : cstring) (m : VCIGMode)
    (sf : VCSafetyProfile) (q : VCQualityPreset) (r : VCSemanticIGResult) :
  BuildSemanticIGSpec to_string_float raw m sf q = Ok r ->
  jsonUnescape (jsonEscape (corePrompt (scene r))) = corePrompt (scene r)
  /\ jsonUnescape (jsonEscape (name (primarySubject (scene r))))
     = name (primarySubject (scene r)).
Proof.
  unfold BuildSemanticIGSpec, buildScenePlanFromPrompt.
  destruct (sanitizePromptForVision raw) as [core|e] eqn:Hs; [|done].
  intros [= <-]. cbn [scene jsonControl corePrompt primarySubject name].
  assert (Forall (fun c => isAsciiPrintable c = true) core) as Hp.
  { apply sanitize_Ok in Hs as (_ & _ & ->). apply processed_printable. }
  assert (forall s, Forall (fun c => (32 <= uchar c)%N) s ->
            jsonUnescape (jsonEscape s) = s) as Hrt.
  { intros s H. rewrite jsonUnescape_jsonEscape. apply filter_id_iff.
    eapply Forall_impl; [exact H|]. intros c Hc. unfold json_dropped.
    apply N.ltb_ge in Hc. by rewrite Hc. }
  split_and!.
  - apply Hrt. eapply Forall_impl; [exact Hp|].
    intros c Hc%isAsciiPrintable_range. lia.
  - apply Hrt.
    destruct (guessSubjectName_substring core) as [->|Hsub].
    + repeat constructor; by vm_compute.
    + eapply substring_Forall; [exact Hsub|].
      rewrite toLowerASCII_map. apply Forall_fmap.
      eapply Forall_impl; [exact Hp|]. intros c Hc. simpl.
      apply lowerChar_printable in Hc. apply isAsciiPrintable_range in Hc. lia.
Qed.

Lemma X12_core_prompt_is_serialized_without_loss_witness :
  exists r,
    BuildSemanticIGSpec to_string_fixed promptD TextToImage Safe High = Ok r
    /\ jsonUnescape (jsonEscape (corePrompt (scene r))) = corePrompt (scene r)
    /\ jsonUnescape (jsonEscape (name (primarySubject (scene r))))
       = name (primarySubject (scene r)).
Proof.
  destruct (BuildSemanticIGSpec to_string_fixed promptD TextToImage Safe High)
    as [r|e] eqn:H; [|by vm_compute in H].
  exists r. split; [reflexivity|].
  exact (X12_core_prompt_is_serialized_without_loss _ _ _ _ _ r H).
Defined.

(** ** Letter case *)

Lemma keeps_lower (c : ascii) : keeps (lowerChar c) = keeps c.
Proof. by destruct c as [[] [] [] [] [] [] [] []]. Qed.

Lemma isSpaceLike_lower (c : ascii) :
  isSpaceLike (lowerChar c) = isSpaceLike c.
Proof. by destruct c as [[] [] [] [] [] [] [] []]. Qed.

Lemma lowerChar_space (c : ascii) :
  Ascii.eqb (lowerChar c) SPACE = Ascii.eqb c SPACE.
Proof. by destruct c as [[] [] [] [] [] [] [] []]. Qed.

Lemma stripControl_lower (s : cstring) :
  lowerChar <$> stripControl s = stripControl (lowerChar <$> s).
Proof.
  rewrite !stripControl_filter.
  induction s as [|c s IH]; [done|].
  rewrite fmap_cons. cbn [List.filter]. rewrite keeps_lower.
  destruct (keeps c); by rewrite ?fmap_cons, IH.
Qed.

Lemma collapse_run_lower (space : bool) (s : cstring) :
  lowerChar <$> collapse_run space s = collapse_run space (lowerChar <$> s).
Proof.
  revert space. induction s as [|c s IH]; intros space; [done|].
  rewrite fmap_cons, !collapse_run_cons, isSpaceLike_lower.
  destruct (isSpaceLike c); [destruct space|]; by rewrite ?fmap_cons, IH.
Qed.

Lemma removelast_fmap {A B} (f : A -> B) (l : list A) :
  f <$> removelast l = removelast (f <$> l).
Proof.
  induction l as [|x l IH]; [done|]. destruct l as [|y l]; [done|].
  change (removelast (x :: y :: l)) with (x :: removelast (y :: l)).
  rewrite !fmap_cons.
  change (removelast (f x :: f y :: (f <$> l)))
    with (f x :: removelast (f y :: (f <$> l))).
  by rewrite IH.
Qed.

Lemma trim_back_lower (s : cstring) :
  lowerChar <$> trim_back s = trim_back (lowerChar <$> s).
Proof.
  rewrite !trim_back_eq, fmap_last.
  destruct (last s) as [c|]; simpl; [|done].
  rewrite lowerChar_space. destruct (Ascii.eqb c SPACE); [|done].
  apply removelast_fmap.
Qed.

Lemma collapseWhitespace_lower (s : cstring) :
  lowerChar <$> collapseWhitespace s = collapseWhitespace (lowerChar <$> s).
Proof.
  by rewrite !collapseWhitespace_run, trim_back_lower, collapse_run_lower.
Qed.

Lemma scan_term_log_lower (fuel : nat) (t : cstring) (pos : nat)
    (o1 o2 lower : cstring) :
  length o1 = length lower -> length o2 = length lower ->
  same_scan (scan_term_log fuel t pos (o1, lower))
            (scan_term_log fuel t pos (o2, lower)).
Proof.
  revert pos o1 o2 lower.
  induction fuel as [|fuel IH]; intros pos o1 o2 lower H1 H2; [done|].
  cbn [scan_term_log snd]. destruct (find lower t pos) as [p|]; [|done].
  rewrite !mask_span_pair by done.
  specialize (IH (p + length t) (mask1 (length t) p o1)
                (mask1 (length t) p o2) (mask1 (length t) p lower)).
  rewrite !mask1_length in IH. specialize (IH H1 H2).
  destruct (scan_term_log fuel t _ (mask1 _ _ o1, _)) as [[[o1' l1] ps1]|],
    (scan_term_log fuel t _ (mask1 _ _ o2, _)) as [[[o2' l2] ps2]|];
    try done.
  destruct IH as (-> & -> & ? & ?). done.
Qed.

Lemma scan_terms_log_lower (fuel : nat) (ts : list cstring)
    (o1 o2 lower : cstring) :
  length o1 = length lower -> length o2 = length lower ->
  same_scan (scan_terms_log fuel ts (o1, lower))
            (scan_terms_log fuel ts (o2, lower)).
Proof.
  revert o1 o2 lower.
  induction ts as [|t ts IH]; intros o1 o2 lower H1 H2; [done|].
  cbn [scan_terms_log].
  pose proof (scan_term_log_lower fuel t 0 o1 o2 lower H1 H2) as Ht.
  destruct (scan_term_log fuel t 0 (o1, lower)) as [[[o1' l1] ps1]|],
    (scan_term_log fuel t 0 (o2, lower)) as [[[o2' l2] ps2]|]; try done.
  destruct Ht as (-> & -> & Hl1 & Hl2).
  specialize (IH o1' o2' l2 Hl1 Hl2).
  destruct (scan_terms_log fuel ts (o1', l2)) as [[[o1'' l1'] evs1]|],
    (scan_terms_log fuel ts (o2', l2)) as [[[o2'' l2'] evs2]|]; try done.
  destruct IH as (-> & -> & ? & ?). done.
Qed.

Lemma stripNSFW_matches_lower (s1 s2 : cstring) :
  lowerChar <$> s1 = lowerChar <$> s2 ->
  stripNSFW_matches s1 = stripNSFW_matches s2.
Proof.
  intros H. pose proof (f_equal length H) as Hlen.
  rewrite !length_fmap in Hlen.
  unfold stripNSFW_matches. rewrite !toLowerASCII_map, <- H, <- Hlen.
  pose proof (scan_terms_log_lower (S (length s1)) kBlockList s1 s2
                (lowerChar <$> s1)) as Hs.
  rewrite !length_fmap in Hs. specialize (Hs eq_refl (eq_sym Hlen)).
  destruct (scan_terms_log _ _ (s1, _)) as [[[? ?] ?]|],
    (scan_terms_log _ _ (s2, _)) as [[[? ?] ?]|]; try done.
  by destruct Hs as (_ & -> & _).
Qed.

Lemma stripNSFWMarkers_lower (s1 s2 : cstring) :
  lowerChar <$> s1 = lowerChar <$> s2 ->
  lowerChar <$> stripNSFWMarkers s1 = lowerChar <$> stripNSFWMarkers s2.
Proof.
  intros H.
  destruct (stripNSFW_run s1) as (? & _ & _ & _ & _ & -> & _).
  destruct (stripNSFW_run s2) as (? & _ & _ & _ & _ & -> & _).
  by rewrite !apply_masks_lower, (stripNSFW_matches_lower s1 s2 H), H.
Qed.

Lemma processed_lower (raw1 raw2 : cstring) :
  lowerChar <$> raw1 = lowerChar <$> raw2 ->
  lowerChar <$> truncated (processed raw1)
  = lowerChar <$> truncated (processed raw2).
Proof.
  intros H.
  assert (lowerChar <$> processed raw1 = lowerChar <$> processed raw2) as Hp.
  { unfold processed. apply stripNSFWMarkers_lower.
    by rewrite !collapseWhitespace_lower, !stripControl_lower, H. }
  pose proof (f_equal length Hp) as Hlen. rewrite !length_fmap in Hlen.
  unfold truncated, resize_down. rewrite Hlen.
  destruct (_ <? _); [|done]. by rewrite !fmap_take, Hp.
Qed.

(** X13: two raw prompts that differ in the case of ASCII letters only
    are classified alike: both are rejected with the same error, or both
    plans have the same aspect ratio, art style, colour tone, lighting,
    camera, composition, background and subject, and core prompts that
    differ in letter case only. *)
Theorem X13_classification_ignores_letter_case (raw1 raw2 : cstring)
    (m : VCIGMode) (sf : VCSafetyProfile) (q : VCQualityPreset) :
  toLowerASCII raw1 = toLowerASCII raw2 ->
  match buildScenePlanFromPrompt raw1 m sf q,
        buildScenePlanFromPrompt raw2 m sf q with
  | Ok p1, Ok p2 => same_reading p1 p2
  | Throw e1, Throw e2 => e1 = e2
  | _, _ => False
  end.
Proof.
  rewrite !toLowerASCII_map. intros H.
  pose proof (processed_lower raw1 raw2 H) as Hp.
  assert (raw1 = [] <-> raw2 = []) as Hnil.
  { apply (f_equal length) in H. rewrite !length_fmap in H.
    split; intros ->; by apply nil_length_inv. }
  assert (processed raw1 = [] <-> processed raw2 = []) as Hpnil.
  { assert (length (processed raw1) = length (processed raw2)) as Hl.
    { unfold processed. rewrite !stripNSFWMarkers_length.
      rewrite
        <- (length_fmap lowerChar (collapseWhitespace (stripControl raw1))),
        <- (length_fmap lowerChar (collapseWhitespace (stripControl raw2))).
      by rewrite !collapseWhitespace_lower, !stripControl_lower, H. }
    split; intros Hn; apply nil_length_inv; [rewrite <- Hl | rewrite Hl];
      by rewrite Hn. }
  unfold buildScenePlanFromPrompt. rewrite !sanitize_eq.
  repeat case_bool_decide; try done; try tauto.
  unfold same_reading. simpl. rewrite !toLowerASCII_map, Hp.
  split_and!; try done.
  unfold guessSubjectName. by rewrite !toLowerASCII_map, Hp.
Qed.

Lemma X13_classification_ignores_letter_case_witness :
  toLowerASCII (str "A NUDE Dragon, Close-Up, 9:16")
  = toLowerASCII (str "a nude dRAGON, close-up, 9:16")
  /\ match buildScenePlanFromPrompt (str "A NUDE Dragon, Close-Up, 9:16")
             Inpaint Safe Draft,
           buildScenePlanFromPrompt (str "a nude dRAGON, close-up, 9:16")
             Inpaint Safe Draft with
     | Ok p1, Ok p2 => same_reading p1 p2
     | Throw e1, Throw e2 => e1 = e2
     | _, _ => False
     end.
Proof.
  assert (toLowerASCII (str "A NUDE Dragon, Close-Up, 9:16")
          = toLowerASCII (str "a nude dRAGON, close-up, 9:16")) as H
    by (by vm_compute).
  split; [exact H|].
  exact (X13_classification_ignores_letter_case _ _ Inpaint Safe Draft H).
Defined.

(** The cut to 8000 bytes can leave a final space, which a second
    sanitization removes. *)
Lemma sanitize_cut_can_end_in_space :
  sanitizePromptForVision long_prompt = Ok (repeat "a" 7999 ++ [SPACE])
  /\ sanitizePromptForVision (repeat "a" 7999 ++ [SPACE])
     = Ok (repeat "a" 7999).
Proof. split; by vm_compute. Qed.

(** ** The enum tables *)

Ltac table_injective :=
  let a := fresh in let b := fresh in let H := fresh in
  intros a b H; destruct a, b; try reflexivity; by vm_compute in H.

(** X14: in each of the ten [toString] tables two different enumerators
    have different spellings, so an enum can be read back from its
    spelling. *)
Theorem X14_enum_spellings_are_distinct :
  (forall a b, toString_VCAspectRatio a = toString_VCAspectRatio b -> a = b)
  /\ (forall a b, toString_VCIGMode a = toString_VCIGMode b -> a = b)
  /\ (forall a b,
        toString_VCSafetyProfile a = toString_VCSafetyProfile b -> a = b)
  /\ (forall a b,
        toString_VCQualityPreset a = toString_VCQualityPreset b -> a = b)
  /\ (forall a b, toString_VCColorTone a = toString_VCColorTone b -> a = b)
  /\ (forall a b, toString_VCLighting a = toString_VCLighting b -> a = b)
  /\ (forall a b,
        toString_VCCameraAngle a = toString_VCCameraAngle b -> a = b)
  /\ (forall a b,
        toString_VCCompositionRule a = toString_VCCompositionRule b -> a = b)
  /\ (forall a b, toString_VCArtStyle a = toString_VCArtStyle b -> a = b)
  /\ (forall a b,
        toString_VCBrushDetail a = toString_VCBrushDetail b -> a = b).
Proof. split_and!; table_injective. Qed.

(** ** Bytes of the JSON control string *)

Lemma no_control_Forall (l : cstring) :
  forallb no_control l = true -> Forall (fun c => (32 <= uchar c)%N) l.
Proof.
  intros H. apply list.Forall_forall. intros c Hc.
  apply list_elem_of_In in Hc.
  apply (proj1 (forallb_forall _ _) H), N.leb_le in Hc. done.
Qed.

Lemma jsonEscape_no_control (s : cstring) :
  Forall (fun d => (32 <= uchar d)%N) (jsonEscape s).
Proof.
  rewrite jsonEscape_flat_map. induction s as [|c s IH]; simpl;
    [constructor|]. apply Forall_app. split; [|done].
  apply escape_char_no_control.
Qed.

Lemma secondary_loop_no_control (l : list VCSubjectDescriptor) (n i : nat)
    (j : cstring) :
  Forall (fun d => (32 <= uchar d)%N) j ->
  Forall (fun d => (32 <= uchar d)%N) (secondary_loop n i l j).
Proof.
  revert i j. induction l as [|s l IH]; intros i j Hj; [done|].
  cbn [secondary_loop]. apply IH.
  destruct (i + 1 <? n);
    repeat (apply Forall_app; split);
    first [done | apply jsonEscape_no_control
          | by apply no_control_Forall].
Qed.

Ltac table_no_control :=
  let x := fresh in intros x; destruct x; by apply no_control_Forall.

Lemma toString_no_control :
  (forall x, Forall (fun d => (32 <= uchar d)%N) (toString_VCAspectRatio x))
  /\ (forall x, Forall (fun d => (32 <= uchar d)%N) (toString_VCIGMode x))
  /\ (forall x,
        Forall (fun d => (32 <= uchar d)%N) (toString_VCSafetyProfile x))
  /\ (forall x,
        Forall (fun d => (32 <= uchar d)%N) (toString_VCQualityPreset x))
  /\ (forall x, Forall (fun d => (32 <= uchar d)%N) (toString_VCColorTone x))
  /\ (forall x, Forall (fun d => (32 <= uchar d)%N) (toString_VCLighting x))
  /\ (forall x,
        Forall (fun d => (32 <= uchar d)%N) (toString_VCCameraAngle x))
  /\ (forall x,
        Forall (fun d => (32 <= uchar d)%N) (toString_VCCompositionRule x))
  /\ (forall x, Forall (fun d => (32 <= uchar d)%N) (toString_VCArtStyle x))
  /\ (forall x,
        Forall (fun d => (32 <= uchar d)%N) (toString_VCBrushDetail x))
  /\ (forall b, Forall (fun d => (32 <= uchar d)%N) (bool_token b)).
Proof. split_and!; table_no_control. Qed.

(** X15: when [std::to_string] writes no byte below 0x20 for the focal
    length, the JSON control string of any plan, whatever its strings
    hold, has no byte below 0x20. *)
Theorem X15_json_has_no_control_byte (to_string_float : float32 -> cstring)
    (p : VCScenePlan) :
  Forall (fun d => (32 <= uchar d)%N)
    (to_string_float (focalLengthMM (camera p))) ->
  Forall (fun d => (32 <= uchar d)%N)
    (serializeScenePlanToJSON to_string_float p).
Proof.
  intros Hf. unfold serializeScenePlanToJSON. cbv zeta.
  destruct toString_no_control
    as (T1 & T2 & T3 & T4 & T5 & T6 & T7 & T8 & T9 & T10 & T11).
  repeat (apply Forall_app; split);
    try apply secondary_loop_no_control;
    repeat (apply Forall_app; split);
    first [ done
          | apply jsonEscape_no_control
          | apply T1 | apply T2 | apply T3 | apply T4 | apply T5 | apply T6
          | apply T7 | apply T8 | apply T9 | apply T10 | apply T11
          | by apply no_control_Forall ].
Qed.


Lemma X15_json_has_no_control_byte_witness :
  Forall (fun d => (32 <= uchar d)%N)
    (to_string_fixed (focalLengthMM (camera sample_plan)))
  /\ Forall (fun d => (32 <= uchar d)%N)
       (serializeScenePlanToJSON to_string_fixed sample_plan).
Proof.
  assert (Forall (fun d => (32 <= uchar d)%N)
            (to_string_fixed (focalLengthMM (camera sample_plan)))) as H
    by (by apply no_control_Forall).
  split; [exact H|].
  exact (X15_json_has_no_control_byte to_string_fixed sample_plan H).
Defined.
